(** * rez-cook: constraint algebra and dependency-tree resolver

    A shallow embedding of [package_list.py], [recipe.py] and the resolver
    functions [has_dependency_conflict] and [build_dependency_tree] of
    [rez-cook.py], with the main block's selection of what to cook. *)

From Stdlib Require Import String Ascii List Bool Arith Lia Permutation.
Import ListNotations.
Open Scope string_scope.
Open Scope list_scope.

(** ** Version ranges (the [rez.vendor.version] collaborator)

    A range is the interval of versions [v] with [lo <= v] and, when [hi] is
    [Some h], [v < h]; [hi = None] is unbounded above. The range "any" is
    [lo = 0, hi = None]. Like rez's [VersionRange.intersection], the
    intersection of two ranges is [None] when it holds no version. *)

Record VersionRange := mkRange { lo : nat; hi : option nat }.

Definition any_range : VersionRange := mkRange 0 None.

Definition min_hi (a b : option nat) : option nat :=
  match a, b with
  | None, h | h, None => h
  | Some x, Some y => Some (Nat.min x y)
  end.

Definition range_nonempty (r : VersionRange) : bool :=
  match hi r with None => true | Some h => Nat.ltb (lo r) h end.

Definition intersection (a b : VersionRange) : option VersionRange :=
  let r := mkRange (Nat.max (lo a) (lo b)) (min_hi (hi a) (hi b)) in
  if range_nonempty r then Some r else None.

Definition intersects (a b : VersionRange) : bool :=
  match intersection a b with Some _ => true | None => false end.

(** The range rez parses from the text [f"{name}-{None}"], written by
    [constrained] when the intersection is empty: no version satisfies it. *)
Definition empty_range : VersionRange := mkRange 0 (Some 0).

(** ** Package requests (rez's [PackageRequest]) *)

Record PackageRequest := mkReq { name : string; range : VersionRange }.

(** [Requirement.conflicts_with]: same family and disjoint ranges. *)
Definition req_conflicts_with (p r : PackageRequest) : bool :=
  String.eqb (name p) (name r) && negb (intersects (range p) (range r)).

(** [Requirement.merged]: [None] across families or on an empty
    intersection. The source re-parses the result through
    [PackageRequest(f"{m.name}-{m.range}")], which gives back [m]. *)
Definition req_merged (p r : PackageRequest) : option PackageRequest :=
  if String.eqb (name p) (name r) then
    match intersection (range p) (range r) with
    | Some rg => Some (mkReq (name p) rg)
    | None => None
    end
  else None.

(** ** Exceptions and results *)

(** Entries of a dependency chain: [str(rec.pkg)] pushed by the resolver, or
    the boolean [constraints_conflict] appended by [has_dependency_conflict]. *)
Inductive ChainEntry := CPkg (p : PackageRequest) | CBool (b : bool).

Definition Chain := list ChainEntry.

(** Messages of the two [RuntimeError]s raised by [build_dependency_tree]. *)
Inductive RuntimeMsg :=
| CouldNotFindRecipe (p : PackageRequest)
    (* f"Could not find a recipe for {pkg}" *)
| CouldNotFindSuitableRecipe (p : PackageRequest) (failed : list Chain)
    (* f"Could not find suitable recipe for {pkg}. {failed_dependency_chains}" *).

Inductive Exc :=
| VersionConflict
| RuntimeError (m : RuntimeMsg)
| TypeError
| RecipeNotFound
| DependencyConflict.

Inductive Result (A : Type) := Ok (a : A) | Err (e : Exc).
Arguments Ok {A} a.
Arguments Err {A} e.

Definition rbind {A B} (m : Result A) (k : A -> Result B) : Result B :=
  match m with Ok a => k a | Err e => Err e end.

Notation "'let!' x := m 'in' k" := (rbind m (fun x => k))
  (at level 200, x name, m at level 100, k at level 200).
Notation "'let!' ' pat := m 'in' k" := (rbind m (fun x => match x with pat => k end))
  (at level 200, pat pattern, m at level 100, k at level 200).

(** ** Python dicts: insertion-ordered association lists *)

Section Dict.
Context {V : Type}.

Definition Dict := list (string * V).

Fixpoint dict_get (d : Dict) (k : string) : option V :=
  match d with
  | [] => None
  | (k', v) :: d' => if String.eqb k k' then Some v else dict_get d' k
  end.

(** [d[k] = v]: an existing key keeps its position, a new key is appended. *)
Fixpoint dict_set (d : Dict) (k : string) (v : V) : Dict :=
  match d with
  | [] => [(k, v)]
  | (k', v') :: d' =>
      if String.eqb k k' then (k, v) :: d' else (k', v') :: dict_set d' k v
  end.

Definition dict_keys (d : Dict) : list string := map fst d.
Definition dict_values (d : Dict) : list V := map snd d.

End Dict.
Arguments Dict : clear implicits.

(** ** PackageList *)

Definition PackageList := list PackageRequest.

Definition names (l : PackageList) : list string := map name l.

(** [PackageList.__init__] on a list of [PackageRequest]s: a copy. *)
Definition PackageList_init (pkgs : list PackageRequest) : PackageList := pkgs.

(** [PackageList.__add__]. *)
Definition PackageList_add (a b : PackageList) : PackageList :=
  PackageList_init (a ++ b).

Definition has_conflicts_with (self rhs : PackageList) : bool :=
  existsb (fun p => existsb (fun r => req_conflicts_with p r) rhs) self.

(** [return len(self._pkgs) != 0] *)
Definition is_empty (self : PackageList) : bool := negb (Nat.eqb (length self) 0).

(** [get_conflicts]: on the first conflicting pair the statement
    [conflicts.append[(p, r)]] subscripts the bound method [append], which
    raises [TypeError]; [conflicts] is never appended to. The two loops: *)
Fixpoint get_conflicts_inner (p : PackageRequest) (rs : PackageList) : Result unit :=
  match rs with
  | [] => Ok tt
  | r :: rs' =>
      if req_conflicts_with p r then Err TypeError (* conflicts.append[(p, r)] *)
      else get_conflicts_inner p rs'
  end.

Fixpoint get_conflicts_outer (ps rhs : PackageList) : Result unit :=
  match ps with
  | [] => Ok tt
  | p :: ps' => let! _ := get_conflicts_inner p rhs in get_conflicts_outer ps' rhs
  end.

Definition get_conflicts (self rhs : PackageList)
  : Result (list (PackageRequest * PackageRequest)) :=
  let conflicts := [] in
  let! _ := get_conflicts_outer self rhs in Ok conflicts.

Definition list_conflicts_with (self : PackageList) (r : PackageRequest) : bool :=
  existsb (fun p => req_conflicts_with p r) self.

(** [dict(zip([p.name for p in l], l))] *)
Definition dict_of (l : PackageList) : Dict PackageRequest :=
  fold_left (fun d p => dict_set d (name p) p) l [].

(** The loop [for p in rhs] of [additive_merged] over the dict [d]. *)
Fixpoint additive_merged_loop (ps : PackageList) (d : Dict PackageRequest)
  : Result (Dict PackageRequest) :=
  match ps with
  | [] => Ok d
  | p :: ps' =>
      match dict_get d (name p) with
      | Some q =>
          match req_merged p q with
          | None => Err VersionConflict
          | Some m => additive_merged_loop ps' (dict_set d (name p) (mkReq (name m) (range m)))
          end
      | None => additive_merged_loop ps' (dict_set d (name p) p)
      end
  end.

Definition additive_merged (self rhs : PackageList) : Result PackageList :=
  let d := dict_of self in
  let! d' := additive_merged_loop rhs d in Ok (PackageList_init (dict_values d')).

(** The loop [for p in rhs] of [merged], [d] being the dict of [self]. *)
Fixpoint merged_loop (d : Dict PackageRequest) (ps : PackageList) (result : PackageList)
  : Result PackageList :=
  match ps with
  | [] => Ok result
  | p :: ps' =>
      match dict_get d (name p) with
      | Some q =>
          match req_merged p q with
          | None => Err VersionConflict
          | Some m => merged_loop d ps' (result ++ [mkReq (name m) (range m)])
          end
      | None => merged_loop d ps' result
      end
  end.

Definition merged (self rhs : PackageList) : Result PackageList :=
  let! result := merged_loop (dict_of self) rhs [] in Ok (PackageList_init result).

(** The loop [for p in self._pkgs] of [merged_into], [d] being the dict of
    [rhs]. *)
Fixpoint merged_into_loop (d : Dict PackageRequest) (ps : PackageList) (result : PackageList)
  : Result PackageList :=
  match ps with
  | [] => Ok result
  | p :: ps' =>
      match dict_get d (name p) with
      | Some q =>
          match req_merged p q with
          | None => Err VersionConflict
          | Some m => merged_into_loop d ps' (result ++ [mkReq (name m) (range m)])
          end
      | None => merged_into_loop d ps' (result ++ [p])
      end
  end.

Definition merged_into (self rhs : PackageList) : Result PackageList :=
  let! result := merged_into_loop (dict_of rhs) self [] in Ok (PackageList_init result).

Definition constrained (self : PackageList) (rhs : PackageRequest) : PackageList :=
  PackageList_init
    (map (fun p =>
            if String.eqb (name rhs) (name p) then
              mkReq (name p)
                    (match intersection (range p) (range rhs) with
                     | Some rg => rg
                     | None => empty_range
                     end)
            else p) self).

(** The loop of [add_constraint]; the state is [(result, found)]. *)
Fixpoint add_constraint_loop (rhs : PackageRequest) (ps : PackageList)
  (result : PackageList) (found : bool) : Result (PackageList * bool) :=
  match ps with
  | [] => Ok (result, found)
  | p :: ps' =>
      if String.eqb (name rhs) (name p) then
        match req_merged p rhs with
        | None => Err VersionConflict
        | Some m => add_constraint_loop rhs ps' (result ++ [mkReq (name m) (range m)]) true
        end
      else add_constraint_loop rhs ps' (result ++ [p]) found
  end.

(** [add_constraint] mutates [self]; it returns the new contents of
    [self._pkgs]. *)
Definition add_constraint (self : PackageList) (rhs : PackageRequest)
  : Result PackageList :=
  let! '(result, found) := add_constraint_loop rhs self [] false in
  Ok (PackageList_init (if found then result else result ++ [rhs])).

(** [for pkg in merged_requires: constraints.add_constraint(pkg)] *)
Fixpoint add_constraints (constraints : PackageList) (ps : PackageList)
  : Result PackageList :=
  match ps with
  | [] => Ok constraints
  | p :: ps' =>
      let! constraints' := add_constraint constraints p in add_constraints constraints' ps'
  end.

(** ** Recipes ([recipe.py])

    [Recipe] defines no [__eq__], so [rec not in l] compares objects by
    identity; [rid] is that object identity. *)

Record Recipe := mkRecipe {
  rid : nat;
  pkg : PackageRequest;
  variant : PackageList;
  requires : PackageList;
  build_requires : PackageList;
  installed : bool
}.

Definition conflicts_with_package_list (self : Recipe) (rhs : PackageList) : bool :=
  existsb (fun p =>
             (String.eqb (name (pkg self)) (name p)
              && negb (intersects (range (pkg self)) (range p)))
             || has_conflicts_with (variant self) rhs
             || has_conflicts_with (requires self) rhs
             || has_conflicts_with (build_requires self) rhs) rhs.

(** The catalog [RECIPES]: family name to recipes, most preferred first. *)
Definition Catalog := Dict (list Recipe).

(** The result of [build_dependency_tree]: family name to recipes. *)
Definition Deps := Dict (list Recipe).

Definition mem_recipe (r : Recipe) (l : list Recipe) : bool :=
  existsb (fun r' => Nat.eqb (rid r') (rid r)) l.

(** ** The resolver's monad

    [M A] is [None] when the recursion is cut off: a computation that returns
    [None] for every fuel never returns. *)

Definition M (A : Type) := option (Result A).

Definition mret {A} (a : A) : M A := Some (Ok a).
Definition mraise {A} (e : Exc) : M A := Some (Err e).
Definition mlift {A} (r : Result A) : M A := Some r.

Definition mbind {A B} (m : M A) (k : A -> M B) : M B :=
  match m with
  | None => None
  | Some (Err e) => Some (Err e)
  | Some (Ok a) => k a
  end.

Notation "'let?' x := m 'in' k" := (mbind m (fun x => k))
  (at level 200, x name, m at level 100, k at level 200).
Notation "'let?' ' pat := m 'in' k" := (mbind m (fun x => match x with pat => k end))
  (at level 200, pat pattern, m at level 100, k at level 200).

(** ** [has_dependency_conflict]

    The loops of the function body over the alternatives [RECIPES[pkg.name]]
    and over the entries of [merged]; [check] is the recursive call. The
    state is [(all_conflict, failed_dependency_chain)]. *)

Section Loops.
Variable check : Recipe -> PackageList -> Catalog -> Chain -> M (bool * Chain).
Variable constraints : PackageList.
Variable RECIPES : Catalog.

Fixpoint hdc_alternatives (p : PackageRequest) (recs : list Recipe)
  (st : bool * Chain) : M (bool * Chain) :=
  match recs with
  | [] => mret st
  | rec :: recs' =>
      if req_conflicts_with (pkg rec) p then hdc_alternatives p recs' st
      else
        let '(all_conflict, fdc) := st in
        let? '(c, fdc') := check rec constraints RECIPES fdc in
        hdc_alternatives p recs' (if c then all_conflict else false, fdc')
  end.

Fixpoint hdc_entries (ps : PackageList) (st : bool * Chain) : M (bool * Chain) :=
  match ps with
  | [] => mret st
  | p :: ps' =>
      match dict_get RECIPES (name p) with
      | Some recs =>
          let? st' := hdc_alternatives p recs st in hdc_entries ps' st'
      | None => hdc_entries ps' st
      end
  end.

End Loops.

(** The function returns its boolean and the final contents of the list
    [failed_dependency_chain] it appends to. *)
Fixpoint has_dependency_conflict (fuel : nat) (recipe : Recipe)
  (constraints : PackageList) (RECIPES : Catalog)
  (failed_dependency_chain : Chain) : M (bool * Chain) :=
  match fuel with
  | O => None
  | S fuel' =>
      let constraints_conflict := conflicts_with_package_list recipe constraints in
      if constraints_conflict then
        mret (true, failed_dependency_chain ++ [CBool constraints_conflict])
      else
        let? merged := mlift (additive_merged (build_requires recipe) (requires recipe)) in
        if negb (Nat.eqb (length merged) 0) then
          hdc_entries (has_dependency_conflict fuel') constraints RECIPES merged
                      (true, failed_dependency_chain)
        else mret (false, failed_dependency_chain)
  end.

(** ** [build_dependency_tree] *)

(** [for dr in dep_recs: if dr not in existing_recs: existing_recs.append(dr)] *)
Definition append_missing (existing dep_recs : list Recipe) : list Recipe :=
  fold_left (fun ex dr => if mem_recipe dr ex then ex else ex ++ [dr]) dep_recs existing.

(** Adding [dep_recipes] (the result of the recursive call) to [new_deps]. *)
Definition merge_deps (new_deps dep_recipes : Deps) : Deps :=
  fold_left (fun nd '(dep_name, dep_recs) =>
               match dict_get nd dep_name with
               | Some existing_recs => dict_set nd dep_name (append_missing existing_recs dep_recs)
               | None => dict_set nd dep_name dep_recs
               end) dep_recipes new_deps.

(** Adding [rec] itself under [rec.pkg.name]. *)
Definition add_recipe (new_deps : Deps) (rec : Recipe) : Deps :=
  match dict_get new_deps (name (pkg rec)) with
  | None => dict_set new_deps (name (pkg rec)) [rec]
  | Some l => if mem_recipe rec l then new_deps
              else dict_set new_deps (name (pkg rec)) (l ++ [rec])
  end.

(** State of the loop over the candidates for one entry [pkg] (the entry is
    [p] here, [pkg] being the recipe field): [new_deps], the shared
    [constraints], [found_any] and [failed_dependency_chains]. *)
Definition CandState : Type := (Deps * PackageList * bool * list Chain)%type.

Section ResolveLoops.
Variable recurse : Recipe -> PackageList -> Catalog -> Chain -> M (Deps * PackageList).
Variable check : Recipe -> PackageList -> Catalog -> Chain -> M (bool * Chain).
Variable RECIPES : Catalog.
Variable chain : Chain.

Fixpoint resolve_candidates (p : PackageRequest) (recs : list Recipe)
  (st : CandState) : M CandState :=
  match recs with
  | [] => mret st
  | rec :: recs' =>
      let '(new_deps, constraints, found_any, failed) := st in
      if req_conflicts_with (pkg rec) p then resolve_candidates p recs' st
      else
        let? '(conflict, failchain) := check rec constraints RECIPES chain in
        if conflict then
          resolve_candidates p recs' (new_deps, constraints, found_any, failed ++ [failchain])
        else
          let? '(dep_recipes, constraints') :=
            recurse rec constraints RECIPES (chain ++ [CPkg (pkg rec)]) in
          (* no break: the remaining candidates are tried as well *)
          resolve_candidates p recs'
            (add_recipe (merge_deps new_deps dep_recipes) rec, constraints', true, failed)
  end.

Fixpoint resolve_entries (ps : PackageList) (st : Deps * PackageList)
  : M (Deps * PackageList) :=
  match ps with
  | [] => mret st
  | p :: ps' =>
      let '(new_deps, constraints) := st in
      match dict_get RECIPES (name p) with
      | None => mraise (RuntimeError (CouldNotFindRecipe p))
      | Some recs =>
          let? '(new_deps', constraints', found_any, failed) :=
            resolve_candidates p recs (new_deps, constraints, false, []) in
          if negb found_any then
            mraise (RuntimeError (CouldNotFindSuitableRecipe p failed))
          else resolve_entries ps' (new_deps', constraints')
      end
  end.

End ResolveLoops.

(** [merged_requires = recipe.build_requires.additive_merged(recipe.requires)
    .additive_merged(recipe.variant)] *)
Definition merged_requires_of (recipe : Recipe) : Result PackageList :=
  let! m := additive_merged (build_requires recipe) (requires recipe) in
  additive_merged m (variant recipe).

(** Returns [new_deps] and the contents of the caller's [constraints] object,
    which the function mutates. *)
Fixpoint build_dependency_tree (fuel : nat) (recipe : Recipe)
  (constraints : PackageList) (RECIPES : Catalog) (chain : Chain)
  : M (Deps * PackageList) :=
  match fuel with
  | O => None
  | S fuel' =>
      let? merged_requires := mlift (merged_requires_of recipe) in
      let? constraints' := mlift (add_constraints constraints merged_requires) in
      resolve_entries (build_dependency_tree fuel') (has_dependency_conflict fuel')
                      RECIPES chain merged_requires ([], constraints')
  end.

(** ** Vocabulary of the properties *)

(** The entry of family [n] in a list (the first one). *)
Definition find_req (l : PackageList) (n : string) : option PackageRequest :=
  find (fun p => String.eqb (name p) n) l.

(** Some family of [A] and [B] has disjoint ranges in the two lists. *)
Definition shared_empty (A B : PackageList) : Prop :=
  exists a b, In a A /\ In b B /\ name a = name b
              /\ intersection (range a) (range b) = None.

(** A dict of requests keyed by the requests' own names. *)
Definition dict_wf (d : Dict PackageRequest) : Prop :=
  Forall (fun kv => name (snd kv) = fst kv) d.

(** ** Concrete inputs *)

Definition req (n : string) (l : nat) (h : option nat) : PackageRequest :=
  mkReq n (mkRange l h).

(** Two requests for family [x] with disjoint ranges. *)
Definition x_1 : PackageRequest := req "x" 1 (Some 2).
Definition x_2 : PackageRequest := req "x" 2 (Some 3).

(** Resolver inputs. [root_x] requires any [x]. *)
Definition root_x : Recipe :=
  mkRecipe 0 (req "root" 0 None) [] [req "x" 0 None] [] false.
Definition rec_x1 : Recipe := mkRecipe 1 x_1 [] [] [] false.
Definition rec_x2 : Recipe := mkRecipe 2 x_2 [] [] [] false.
(** Two candidates for [x], neither with requirements. *)
Definition catalog_x12 : Catalog := [("x", [rec_x1; rec_x2])].

(** [rec_xy] requires [y] in [1, 2), which the constraint [y_2] excludes. *)
Definition y_2 : PackageRequest := req "y" 2 (Some 3).
Definition rec_xy : Recipe := mkRecipe 1 x_1 [] [req "y" 1 (Some 2)] [] false.
Definition catalog_xy : Catalog := [("x", [rec_xy])].

(** [rec_xc] requires its own family: a requirement cycle. *)
Definition rec_xc : Recipe := mkRecipe 1 x_1 [] [req "x" 0 None] [] false.
Definition catalog_cycle : Catalog := [("x", [rec_xc])].

(** [rec_r] requires [a] and [b]; the constraint [b_5] excludes the only
    recipe of [b]. *)
Definition rec_a : Recipe := mkRecipe 3 (req "a" 1 (Some 2)) [] [] [] false.
Definition rec_b : Recipe := mkRecipe 4 (req "b" 1 (Some 2)) [] [] [] false.
Definition rec_r : Recipe :=
  mkRecipe 5 (req "r" 1 (Some 2)) [] [req "a" 0 None; req "b" 0 None] [] false.
Definition catalog_ab : Catalog := [("a", [rec_a]); ("b", [rec_b])].
Definition b_5 : PackageRequest := req "b" 5 (Some 6).

(** The errors a resolver computation may end with. *)
Definition raises_VC_or_Runtime {A} (m : M A) : Prop :=
  match m with
  | Some (Err e) => e = VersionConflict \/ exists msg, e = RuntimeError msg
  | _ => True
  end.

(** The errors [has_dependency_conflict] may end with. *)
Definition only_VC {A} (m : M A) : Prop :=
  match m with
  | Some (Err e) => e = VersionConflict
  | _ => True
  end.

(** [rec] is listed in [new_deps] under the family [n]. *)
Definition recorded (nd : Deps) (n : string) (rec : Recipe) : Prop :=
  exists l, dict_get nd n = Some l /\ mem_recipe rec l = true.

(** ** [Recipe.conflicts_with_package] *)

Definition conflicts_with_package (self : Recipe) (rhs : PackageRequest) : bool :=
  if String.eqb (name (pkg self)) (name rhs) && negb (intersects (range (pkg self)) (range rhs))
  then true
  else if list_conflicts_with (variant self) rhs then true
  else if list_conflicts_with (requires self) rhs then true
  else if list_conflicts_with (build_requires self) rhs then true
  else false.

(** ** [find_recipe]

    [failchain_of recipe] is the list [[f"{recipe}"]] the function starts
    the failure chain of each candidate with; the chain is only logged. The
    argument [installed] is not read (its test is commented out). *)

Section FindRecipe.
Variable check : Recipe -> PackageList -> Catalog -> Chain -> M (bool * Chain).
Variable failchain_of : Recipe -> Chain.
Variable pkg_req : PackageRequest.
Variable requested_variant : PackageList.
Variable RECIPES : Catalog.

Fixpoint find_recipe_loop (recipes : list Recipe) (found : list Recipe) : M (list Recipe) :=
  match recipes with
  | [] => mret found
  | recipe :: recipes' =>
      if req_conflicts_with pkg_req (pkg recipe) then find_recipe_loop recipes' found
      else
        let failchain := failchain_of recipe in
        let? '(c, _) := check recipe requested_variant RECIPES failchain in
        if c then find_recipe_loop recipes' found
        else find_recipe_loop recipes' (found ++ [recipe])
  end.

End FindRecipe.

Definition find_recipe (fuel : nat) (failchain_of : Recipe -> Chain)
  (pkg_req : PackageRequest) (requested_variant : PackageList) (RECIPES : Catalog)
  (installed : bool) : M (list Recipe) :=
  match RECIPES with
  | [] => mret []
  | _ =>
      match dict_get RECIPES (name pkg_req) with
      | None => mret []
      | Some recipes =>
          find_recipe_loop (has_dependency_conflict fuel) failchain_of pkg_req
                           requested_variant RECIPES recipes []
      end
  end.

(** ** [get_constraints_from_package_recipes] *)

(** Messages of its two [RuntimeError]s. *)
Inductive TopMsg :=
| CouldNotFindAnyRecipes (p : PackageRequest)
    (* f"Could not find any recipes for {pkg_req}" *)
| CouldNotSolveConstraints (p : PackageRequest) (cs : PackageList)
    (* f"Could not solve constraints with {pkg_req} vs {initial_constraints}" *).

(** Its outcomes: the returned constraints, an exception of the callees, or
    one of its own [RuntimeError]s. *)
Inductive GcOutcome :=
| GcOk (cs : PackageList)
| GcRaise (e : Exc)
| GcRuntimeError (m : TopMsg).

(** The loop [for rec in available_recipes]; [constraints] is the
    [deepcopy] of [initial_constraints] that [build_dependency_tree] fills. *)
Fixpoint get_constraints_loop (fuel : nat) (pkg_req : PackageRequest)
  (initial_constraints : PackageList) (RECIPES : Catalog) (recs : list Recipe)
  : option GcOutcome :=
  match recs with
  | [] => Some (GcRuntimeError (CouldNotSolveConstraints pkg_req initial_constraints))
  | rec :: recs' =>
      if conflicts_with_package_list rec initial_constraints then
        get_constraints_loop fuel pkg_req initial_constraints RECIPES recs'
      else
        let constraints := initial_constraints in
        match build_dependency_tree fuel rec constraints RECIPES [] with
        | None => None
        | Some (Err e) => Some (GcRaise e)
        | Some (Ok (_, constraints')) => Some (GcOk constraints')
        end
  end.

Definition get_constraints_from_package_recipes (fuel : nat) (failchain_of : Recipe -> Chain)
  (pkg_req : PackageRequest) (initial_constraints : PackageList) (RECIPES : Catalog)
  : option GcOutcome :=
  match find_recipe fuel failchain_of pkg_req initial_constraints RECIPES false with
  | None => None
  | Some (Err e) => Some (GcRaise e)
  | Some (Ok available_recipes) =>
      match available_recipes with
      | [] => Some (GcRuntimeError (CouldNotFindAnyRecipes pkg_req))
      | _ => get_constraints_loop fuel pkg_req initial_constraints RECIPES available_recipes
      end
  end.

(** ** [build_variant_path] and [find_recipe_resource]

    The file system is given by [listdir] ([os.listdir], in its order) and
    [isdir] ([os.path.isdir]); [parse_request] is rez's [PackageRequest(f)],
    [None] when rez rejects the text. *)

Inductive VariantPathResult :=
| VPath (p : string)
| VRuntimeError  (* f"No matching variant resource found for {variant} under {path}" *)
| VIndexError    (* [variant[comp]] past the end *)
| VParseError.   (* [PackageRequest(f)] rejects [f] *)

(** [os.path.join(a, b)] for a relative [b]. *)
Definition path_join (a b : string) : string := a ++ "/" ++ b.

Section VariantPath.
Variable listdir : string -> list string.
Variable isdir : string -> bool.
Variable parse_request : string -> option PackageRequest.

Section Loop.
Variable recurse : PackageList -> string -> nat -> option VariantPathResult.
Variable variant : PackageList.
Variable path : string.
Variable comp : nat.

Fixpoint build_variant_path_loop (fs : list string) : option VariantPathResult :=
  match fs with
  | [] => Some VRuntimeError
  | f :: fs' =>
      if Nat.eqb comp (length variant) && String.eqb f "package.py" then
        Some (VPath (path_join path "package.py"))
      else if isdir (path_join path f) then
        match parse_request f with
        | None => Some VParseError
        | Some pd =>
            match nth_error variant comp with
            | None => Some VIndexError
            | Some vd =>
                if String.eqb (name vd) (name pd) && intersects (range vd) (range pd)
                then recurse variant (path_join path f) (S comp)
                else build_variant_path_loop fs'
            end
        end
      else build_variant_path_loop fs'
  end.

End Loop.

Fixpoint build_variant_path (fuel : nat) (variant : PackageList) (path : string) (comp : nat)
  : option VariantPathResult :=
  match fuel with
  | O => None
  | S fuel' =>
      build_variant_path_loop (build_variant_path fuel') variant path comp (listdir path)
  end.

(** [version_base = os.path.join(RECIPES_PATH, name, version)]; a
    [RuntimeError] of [build_variant_path] is caught, nothing else. *)
Definition find_recipe_resource (fuel : nat) (RECIPES_PATH name version : string)
  (variant : PackageList) : option VariantPathResult :=
  let version_base := path_join (path_join RECIPES_PATH name) version in
  match build_variant_path fuel variant version_base 0 with
  | Some VRuntimeError => Some (VPath (path_join version_base "package.py"))
  | r => r
  end.

End VariantPath.

(** ** Vocabulary of the further properties *)

(** The version [v] lies in [r]. *)
Definition in_range (v : nat) (r : VersionRange) : bool :=
  Nat.leb (lo r) v && match hi r with None => true | Some h => Nat.ltb v h end.

(** Every version of [r] is a version of [s]. *)
Definition narrower (r s : VersionRange) : Prop :=
  forall v, in_range v r = true -> in_range v s = true.

(** [cs'] keeps the entries of [cs] in place, each with the same family and
    a narrower range, and possibly more entries after them. *)
Definition tightens (cs cs' : PackageList) : Prop :=
  exists pre post, cs' = pre ++ post
    /\ Forall2 (fun c c' => name c' = name c /\ narrower (range c') (range c)) cs pre.

(** The verdict of a [has_dependency_conflict] call that returns [False]. *)
Definition hdc_accepts (m : M (bool * Chain)) : bool :=
  match m with Some (Ok (false, _)) => true | _ => false end.

(** The result of a chain-appending computation when the chain it starts
    from is [fdc] rather than empty. *)
Definition chain_from (fdc : Chain) (m : M (bool * Chain)) : M (bool * Chain) :=
  let? '(b, s) := m in mret (b, fdc ++ s).

(** [r] is one of the recipes the catalog lists under some family. *)
Definition in_catalog (RECIPES : Catalog) (r : Recipe) : Prop :=
  exists n l, dict_get RECIPES n = Some l /\ In r l.

(** A dependency dict as [build_dependency_tree] builds it: one entry per
    family, each recipe listed once under its own family and taken from the
    catalog. *)
Definition deps_wf (RECIPES : Catalog) (nd : Deps) : Prop :=
  NoDup (dict_keys nd)
  /\ Forall (fun kv => NoDup (map rid (snd kv))
                       /\ Forall (fun r => name (pkg r) = fst kv /\ in_catalog RECIPES r)
                                 (snd kv)) nd.

(** [r] and [p] are of one family. *)
Definition same_family (r p : PackageRequest) : bool := String.eqb (name r) (name p).

(** [p] is of the family of [r] with a range disjoint from that of [r]. *)
Definition disjoint_entry (r p : PackageRequest) : bool :=
  String.eqb (name r) (name p) && negb (intersects (range p) (range r)).

(** [n in d.keys()] *)
Definition in_dict {V} (d : Dict V) (n : string) : bool :=
  match dict_get d n with Some _ => true | None => false end.

(** The chain of a finished call holds only the entry [True]. *)
Definition chain_true (m : M (bool * Chain)) : Prop :=
  match m with Some (Ok (_, s)) => Forall (eq (CBool true)) s | _ => True end.

(** An entry [(k, l)] of a well-formed dependency dict. *)
Definition entry_ok (RECIPES : Catalog) (k : string) (l : list Recipe) : Prop :=
  NoDup (map rid l) /\ Forall (fun r => name (pkg r) = k /\ in_catalog RECIPES r) l.

(** A recipe tree on disk: [r/x/1] holds the variant directories
    [python-3], with no [package.py], and [python-2], with one; [r/y/1]
    holds a [patches] directory listed before its [package.py]. *)
Definition demo_listdir (p : string) : list string :=
  if String.eqb p "r/x/1" then ["python-3"; "python-2"]
  else if String.eqb p "r/x/1/python-3" then ["notes.txt"]
  else if String.eqb p "r/x/1/python-2" then ["package.py"]
  else if String.eqb p "r/y/1" then ["patches"; "package.py"]
  else [].

Definition demo_isdir (p : string) : bool :=
  existsb (String.eqb p) ["r/x/1/python-3"; "r/x/1/python-2"; "r/y/1/patches"].

Definition demo_parse (f : string) : option PackageRequest :=
  if String.eqb f "python-3" then Some (req "python" 3 (Some 4))
  else if String.eqb f "python-2" then Some (req "python" 2 (Some 3))
  else if String.eqb f "patches" then Some (req "patches" 0 None)
  else None.

Definition py_any : PackageRequest := req "python" 0 None.

(** Arithmetic on the bounds of ranges, case by case. *)
(** ** The main block: the trees of the compatible recipes

    [trees] is a dict keyed by recipes; [Recipe] hashes by identity, so
    [rec not in trees.keys()] compares [rid]s. *)
Definition trees_has (rec : Recipe) (trees : list (Recipe * Deps)) : bool :=
  mem_recipe rec (map fst trees).

Section BuildTrees.
Variable fuel : nat.
Variable RECIPES : Catalog.
Variable requested_constraints : PackageList.

(** [for rec in available_recipes: ...], with [trees] and [found_any]; each
    tree is built on [deepcopy(requested_constraints)] with the default
    [chain = []], and only the dict [new_deps] is kept. *)
Fixpoint build_trees_loop (recs : list Recipe) (trees : list (Recipe * Deps))
  (found_any : bool) : M (list (Recipe * Deps) * bool) :=
  match recs with
  | [] => mret (trees, found_any)
  | rec :: recs' =>
      if conflicts_with_package_list rec requested_constraints
      then build_trees_loop recs' trees found_any
      else
        let? '(tree, _) := build_dependency_tree fuel rec requested_constraints RECIPES [] in
        build_trees_loop recs'
          (if trees_has rec trees then trees else trees ++ [(rec, tree)]) true
  end.

End BuildTrees.

(** ** The main block: [selected_installed] and [selected_to_cook] *)

(** One recipe into [selected_installed] (if installed) or [selected_to_cook],
    unless it is in one of them already. *)
Definition select_recipe (rec : Recipe) (sel : list Recipe * list Recipe)
  : list Recipe * list Recipe :=
  let '(si, sc) := sel in
  if installed rec then
    if negb (mem_recipe rec si) && negb (mem_recipe rec sc) then (si ++ [rec], sc)
    else (si, sc)
  else
    if negb (mem_recipe rec si) && negb (mem_recipe rec sc) then (si, sc ++ [rec])
    else (si, sc).

(** [for name, recs in deps.items(): rec = recs[0] ...]; [None] is the
    [IndexError] of [recs[0]] on an empty list. *)
Fixpoint select_deps (deps : Deps) (sel : list Recipe * list Recipe)
  : option (list Recipe * list Recipe) :=
  match deps with
  | [] => Some sel
  | (_, recs) :: deps' =>
      match recs with
      | [] => None
      | rec :: _ => select_deps deps' (select_recipe rec sel)
      end
  end.

(** The loop over [trees.items()], left by its [break] after the first tree. *)
Definition split_selected (trees : list (Recipe * Deps))
  : option (list Recipe * list Recipe) :=
  match trees with
  | [] => Some ([], [])
  | (toplevel, deps) :: _ =>
      match select_deps deps ([], []) with
      | None => None
      | Some sel => Some (select_recipe toplevel sel)
      end
  end.

Inductive Selection :=
| NoCompatibleRecipe
    (* f"Could not find an available recipe for {pkg_req} that is compatible
       with {requested_variant}", then [sys.exit(1)] *)
| SelectIndexError
| Selected (selected_installed selected_to_cook : list Recipe).

(** From the loop over [available_recipes] to the split. *)
Definition select_recipes (fuel : nat) (RECIPES : Catalog)
  (requested_constraints : PackageList) (available_recipes : list Recipe) : M Selection :=
  let? '(trees, found_any) :=
    build_trees_loop fuel RECIPES requested_constraints available_recipes [] false in
  if negb found_any then mret NoCompatibleRecipe
  else match split_selected trees with
       | None => mret SelectIndexError
       | Some (si, sc) => mret (Selected si sc)
       end.

(** Every entry of a dependency dict is a nonempty list. *)
Definition deps_nonempty (nd : Deps) : Prop := Forall (fun kv => snd kv <> []) nd.

(** [not r.conflicts_with_package_list(rc)] *)
Definition compatible (rc : PackageList) (r : Recipe) : bool :=
  negb (conflicts_with_package_list r rc).

(** An installed recipe of family [y], and one whose requirement [zz] is not
    in any catalog. *)
Definition rec_y_inst : Recipe := mkRecipe 5 (req "y" 1 (Some 2)) [] [] [] true.
Definition rec_zz : Recipe := mkRecipe 7 (req "x" 3 (Some 4)) [] [req "zz" 0 None] [] false.

(** ** [parse_variants]: [re.finditer(r"PackageRequest\('([\w\.-]+)'\)", vstr)]

    Characters are ASCII: [\w] is then [[A-Za-z0-9_]]. The group [[\w\.-]+]
    is greedy and cannot hold the quote that must follow it, so a match at
    a position is the literal [PackageRequest('], the longest run of
    [[\w\.-]] after it, nonempty, then [')]. [finditer] tries each position
    from the left and resumes after the end of a match. *)

Definition word_char (c : ascii) : bool :=
  let n := nat_of_ascii c in
  (Nat.leb 48 n && Nat.leb n 57) || (Nat.leb 65 n && Nat.leb n 90)
  || (Nat.leb 97 n && Nat.leb n 122)
  || Nat.eqb n 95 || Nat.eqb n 46 || Nat.eqb n 45.

Definition variant_tag : string := "PackageRequest('".

(** [s] with the prefix [p] removed, if [p] is a prefix of [s]. *)
Fixpoint strip_prefix (p s : string) : option string :=
  match p, s with
  | EmptyString, _ => Some s
  | String a p', String b s' => if Ascii.eqb a b then strip_prefix p' s' else None
  | String _ _, EmptyString => None
  end.

(** The longest prefix of [[\w\.-]] characters, and the rest. *)
Fixpoint take_run (s : string) : string * string :=
  match s with
  | EmptyString => (EmptyString, EmptyString)
  | String c s' =>
      if word_char c then let '(r, a) := take_run s' in (String c r, a)
      else (EmptyString, s)
  end.

(** The groups of the matches found from the current position on; [skip]
    characters are left of the match just found. *)
Fixpoint variant_scan (skip : nat) (s : string) : list string :=
  match s with
  | EmptyString => []
  | String _ s' =>
      match skip with
      | S k => variant_scan k s'
      | O =>
          match strip_prefix variant_tag s with
          | Some rest =>
              let '(run, after) := take_run rest in
              match run, strip_prefix "')" after with
              | String _ _, Some _ =>
                  run :: variant_scan (String.length variant_tag + String.length run + 1) s'
              | _, _ => variant_scan 0 s'
              end
          | None => variant_scan 0 s'
          end
      end
  end.

(** [[match.group(1) for match in re.finditer(rgx, vstr)]]: the texts
    [parse_variants] hands to [PackageRequest]. *)
Definition variant_matches (vstr : string) : list string := variant_scan 0 vstr.

(** Every character of [s] satisfies [f]. *)
Fixpoint all_chars (f : ascii -> bool) (s : string) : bool :=
  match s with
  | EmptyString => true
  | String c s' => f c && all_chars f s'
  end.

(** A variant list as rez prints it:
    [[PackageRequest('python-3.7'), PackageRequest('platform-linux')]]. *)
Definition render_request (n : string) : string := variant_tag ++ n ++ "')".

Fixpoint render_requests (ns : list string) : string :=
  match ns with
  | [] => ""
  | [n] => render_request n
  | n :: ns' => render_request n ++ ", " ++ render_requests ns'
  end.

Definition render_variants (ns : list string) : string := "[" ++ render_requests ns ++ "]".

Ltac nat_bool_cases :=
  simpl in *;
  repeat (match goal with
          | |- context [if Nat.ltb ?a ?b then _ else _] => destruct (Nat.ltb_spec a b)
          | |- context [Nat.leb ?a ?b] => destruct (Nat.leb_spec a b)
          | |- context [Nat.ltb ?a ?b] => destruct (Nat.ltb_spec a b)
          end; simpl in *); try reflexivity; try lia.

(** * Properties *)

(** ** Dicts *)

Lemma dict_get_set {V} (d : Dict V) k v n :
  dict_get (dict_set d k v) n = if String.eqb n k then Some v else dict_get d n.
Proof.
  induction d as [|[k' v'] d IH]; simpl; [reflexivity|].
  destruct (String.eqb k k') eqn:Ek; simpl.
  - apply String.eqb_eq in Ek; subst. destruct (String.eqb n k'); reflexivity.
  - rewrite IH. destruct (String.eqb n k) eqn:E1, (String.eqb n k') eqn:E2; auto.
    apply String.eqb_eq in E1, E2; subst. rewrite String.eqb_refl in Ek. discriminate.
Qed.

Lemma dict_keys_set {V} (d : Dict V) k v n :
  In n (dict_keys (dict_set d k v)) <-> n = k \/ In n (dict_keys d).
Proof.
  induction d as [|[k' v'] d IH]; simpl; [intuition congruence|].
  destruct (String.eqb k k') eqn:Ek; simpl.
  - apply String.eqb_eq in Ek; subst. intuition congruence.
  - rewrite IH. intuition congruence.
Qed.

Lemma dict_keys_set_NoDup {V} (d : Dict V) k v :
  NoDup (dict_keys d) -> NoDup (dict_keys (dict_set d k v)).
Proof.
  induction d as [|[k' v'] d IH]; simpl; intros Hnd.
  - constructor; [intros []|constructor].
  - inversion Hnd as [|? ? Hnin Hnd']; subst.
    destruct (String.eqb k k') eqn:Ek; simpl.
    + apply String.eqb_eq in Ek; subst. constructor; assumption.
    + constructor; [|apply IH; assumption].
      rewrite dict_keys_set. intros [Heq|Hin]; [|contradiction].
      subst. rewrite String.eqb_refl in Ek. discriminate.
Qed.

Lemma dict_wf_set d k v :
  dict_wf d -> name v = k -> dict_wf (dict_set d k v).
Proof.
  unfold dict_wf. induction d as [|[k' v'] d IH]; simpl; intros Hwf Hv.
  - constructor; [exact Hv|constructor].
  - inversion Hwf as [|? ? Hh Ht]. destruct (String.eqb k k'); constructor; auto.
Qed.

Lemma dict_wf_get d n v :
  dict_wf d -> dict_get d n = Some v -> name v = n.
Proof.
  unfold dict_wf. induction d as [|[k' v'] d IH]; simpl; intros Hwf Hg; [discriminate|].
  inversion Hwf; subst. destruct (String.eqb n k') eqn:E.
  - apply String.eqb_eq in E. injection Hg as <-. simpl in *. congruence.
  - auto.
Qed.

Lemma dict_wf_names d :
  dict_wf d -> names (dict_values d) = dict_keys d.
Proof.
  unfold dict_wf. induction d as [|[k v] d IH]; simpl; intros Hwf; [reflexivity|].
  inversion Hwf; subst. simpl in *. f_equal; auto.
Qed.

Lemma dict_wf_find d n :
  dict_wf d -> find_req (dict_values d) n = dict_get d n.
Proof.
  unfold dict_wf, find_req. induction d as [|[k v] d IH]; simpl; intros Hwf; [reflexivity|].
  inversion Hwf as [|? ? Hh Ht]. simpl in Hh. rewrite <- Hh, String.eqb_sym.
  destruct (String.eqb n (name v)); [reflexivity|apply IH; exact Ht].
Qed.

(** ** Lists of requests *)

Lemma find_req_some l n p :
  find_req l n = Some p -> In p l /\ name p = n.
Proof.
  unfold find_req. intros H. apply find_some in H as [Hin Heq].
  apply String.eqb_eq in Heq. auto.
Qed.

Lemma find_req_none l n :
  find_req l n = None <-> ~ In n (names l).
Proof.
  unfold find_req, names. induction l as [|p l IH]; simpl; [tauto|].
  destruct (String.eqb (name p) n) eqn:E.
  - apply String.eqb_eq in E. split; [discriminate|]. intros H; exfalso; auto.
  - apply String.eqb_neq in E. rewrite IH. tauto.
Qed.

Lemma find_req_in l p :
  NoDup (names l) -> In p l -> find_req l (name p) = Some p.
Proof.
  unfold find_req, names. induction l as [|p' l IH]; simpl; intros Hnd Hin; [contradiction|].
  inversion Hnd as [|? ? Hnin Hnd']; subst.
  destruct Hin as [<-|Hin].
  - rewrite String.eqb_refl. reflexivity.
  - destruct (String.eqb (name p') (name p)) eqn:E.
    + apply String.eqb_eq in E. exfalso. apply Hnin. rewrite E. apply in_map. exact Hin.
    + auto.
Qed.

Lemma names_in l p : In p l -> In (name p) (names l).
Proof. apply in_map. Qed.

Lemma req_eta m : mkReq (name m) (range m) = m.
Proof. destruct m; reflexivity. Qed.

Lemma min_hi_comm a b : min_hi a b = min_hi b a.
Proof. destruct a, b; simpl; auto. rewrite Nat.min_comm. reflexivity. Qed.

Lemma intersection_comm a b : intersection a b = intersection b a.
Proof. unfold intersection. rewrite Nat.max_comm, min_hi_comm. reflexivity. Qed.

Lemma req_merged_some p q m :
  req_merged p q = Some m ->
  name m = name p /\ name q = name p /\ intersection (range p) (range q) = Some (range m).
Proof.
  unfold req_merged. destruct (String.eqb (name p) (name q)) eqn:E; [|discriminate].
  apply String.eqb_eq in E.
  destruct (intersection (range p) (range q)) eqn:Ei; [|discriminate].
  intros H; injection H as <-. simpl. auto.
Qed.

Lemma req_merged_none p q :
  name p = name q -> req_merged p q = None -> intersection (range p) (range q) = None.
Proof.
  unfold req_merged. intros E. rewrite E, String.eqb_refl.
  destruct (intersection (range p) (range q)); [discriminate|auto].
Qed.

Lemma req_merged_same p q :
  name p = name q -> intersection (range p) (range q) = None -> req_merged p q = None.
Proof. unfold req_merged. intros E Ei. rewrite E, String.eqb_refl, Ei. reflexivity. Qed.

(** ** [dict(zip(...))] *)

Lemma dict_of_fold_get l d n :
  NoDup (names l) ->
  dict_get (fold_left (fun d p => dict_set d (name p) p) l d) n
  = match find_req l n with Some p => Some p | None => dict_get d n end.
Proof.
  revert d. induction l as [|p l IH]; simpl; intros d Hnd; [reflexivity|].
  inversion Hnd as [|? ? Hnin Hnd']; subst.
  rewrite IH by assumption. unfold find_req at 2; simpl.
  rewrite dict_get_set. destruct (String.eqb (name p) n) eqn:E.
  - apply String.eqb_eq in E; subst.
    assert (Hf : find_req l (name p) = None) by (apply find_req_none; assumption).
    rewrite Hf, String.eqb_refl. reflexivity.
  - rewrite String.eqb_sym, E. fold (find_req l n). destruct (find_req l n); reflexivity.
Qed.

Lemma dict_of_get l n :
  NoDup (names l) -> dict_get (dict_of l) n = find_req l n.
Proof.
  intros Hnd. unfold dict_of. rewrite dict_of_fold_get by assumption.
  destruct (find_req l n); reflexivity.
Qed.

Lemma dict_of_fold_wf l d :
  dict_wf d -> NoDup (dict_keys d) ->
  dict_wf (fold_left (fun d p => dict_set d (name p) p) l d)
  /\ NoDup (dict_keys (fold_left (fun d p => dict_set d (name p) p) l d)).
Proof.
  revert d. induction l as [|p l IH]; simpl; intros d Hwf Hnd; [auto|].
  apply IH; [apply dict_wf_set; auto|apply dict_keys_set_NoDup; auto].
Qed.

Lemma dict_of_wf l : dict_wf (dict_of l) /\ NoDup (dict_keys (dict_of l)).
Proof. apply dict_of_fold_wf; constructor. Qed.

Lemma dict_of_fold_get_some l d n q :
  dict_get (fold_left (fun d p => dict_set d (name p) p) l d) n = Some q ->
  In q l \/ dict_get d n = Some q.
Proof.
  revert d. induction l as [|p l IH]; simpl; intros d Hg; [auto|].
  destruct (IH _ Hg) as [Hin|Hd]; [auto|].
  rewrite dict_get_set in Hd. destruct (String.eqb n (name p)); [|auto].
  injection Hd as <-. auto.
Qed.

Lemma dict_of_get_some l n q :
  dict_get (dict_of l) n = Some q -> In q l /\ name q = n.
Proof.
  intros Hg. split.
  - destruct (dict_of_fold_get_some l [] n q Hg) as [H|H]; [exact H|discriminate].
  - apply (dict_wf_get (dict_of l)); [apply dict_of_wf|exact Hg].
Qed.

Lemma Forall2_in_l {X Y} (P : X -> Y -> Prop) l1 l2 x :
  Forall2 P l1 l2 -> In x l1 -> exists y, In y l2 /\ P x y.
Proof.
  induction 1 as [|a b l1 l2 Hab _ IH]; simpl; [intros []|].
  intros [<-|Hin]; [exists b; auto|].
  destruct (IH Hin) as [y [Hy Pxy]]. exists y; auto.
Qed.

Lemma Forall2_names l1 l2 :
  Forall2 (fun a r => name r = name a) l1 l2 -> names l2 = names l1.
Proof. induction 1; simpl; f_equal; auto. Qed.

(** ** [PackageList.is_empty] *)

(** C10: [is_empty] answers [True] exactly on the non-empty lists: it is
    the negation of emptiness. *)
Theorem is_empty_true_iff_nonempty (P : PackageList) :
  is_empty P = true <-> P <> [].
Proof.
  unfold is_empty. destruct P; simpl; split; congruence.
Qed.

(** ** [PackageList.get_conflicts] *)

Lemma get_conflicts_inner_eq p rs :
  get_conflicts_inner p rs
  = if existsb (fun r => req_conflicts_with p r) rs then Err TypeError else Ok tt.
Proof.
  induction rs as [|r rs IH]; simpl; [reflexivity|].
  destruct (req_conflicts_with p r); simpl; auto.
Qed.

Lemma get_conflicts_outer_eq ps rhs :
  get_conflicts_outer ps rhs = if has_conflicts_with ps rhs then Err TypeError else Ok tt.
Proof.
  unfold has_conflicts_with. induction ps as [|p ps IH]; simpl; [reflexivity|].
  rewrite get_conflicts_inner_eq.
  destruct (existsb (fun r => req_conflicts_with p r) rhs); simpl; auto.
Qed.

(** C9: [get_conflicts] returns the empty list when no pair of same-named
    entries conflicts and raises [TypeError] as soon as one pair does; it
    never returns a non-empty list. *)
Theorem get_conflicts_empty_or_TypeError (A B : PackageList) :
  get_conflicts A B = (if has_conflicts_with A B then Err TypeError else Ok [])
  /\ (forall l, get_conflicts A B = Ok l -> l = []).
Proof.
  assert (H : get_conflicts A B = (if has_conflicts_with A B then Err TypeError else Ok [])).
  { unfold get_conflicts. rewrite get_conflicts_outer_eq.
    destruct (has_conflicts_with A B); reflexivity. }
  split; [exact H|]. intros l Hl. rewrite H in Hl.
  destruct (has_conflicts_with A B); congruence.
Qed.

(** ** [PackageList.merged_into] *)

Lemma merged_into_loop_spec d ps acc :
  match merged_into_loop d ps acc with
  | Ok R => exists R', R = acc ++ R' /\
      Forall2 (fun p r => match dict_get d (name p) with
                          | None => r = p
                          | Some q => req_merged p q = Some r
                          end) ps R'
  | Err e => e = VersionConflict /\
      exists p q, In p ps /\ dict_get d (name p) = Some q /\ req_merged p q = None
  end.
Proof.
  revert acc. induction ps as [|p ps IH]; intros acc; simpl.
  - exists []. rewrite app_nil_r. auto.
  - destruct (dict_get d (name p)) as [q|] eqn:Hq.
    + destruct (req_merged p q) as [m|] eqn:Hm.
      * rewrite req_eta. specialize (IH (acc ++ [m])).
        destruct (merged_into_loop d ps (acc ++ [m])).
        -- destruct IH as [R' [-> HF]]. exists (m :: R').
           rewrite <- app_assoc. split; [reflexivity|]. constructor; [rewrite Hq; exact Hm|exact HF].
        -- destruct IH as [-> [p0 [q0 [Hin [Hg Hm0]]]]]. split; [reflexivity|].
           exists p0, q0. auto.
      * split; [reflexivity|]. exists p, q. auto.
    + specialize (IH (acc ++ [p])).
      destruct (merged_into_loop d ps (acc ++ [p])).
      * destruct IH as [R' [-> HF]]. exists (p :: R').
        rewrite <- app_assoc. split; [reflexivity|]. constructor; [rewrite Hq; reflexivity|exact HF].
      * destruct IH as [-> [p0 [q0 [Hin [Hg Hm0]]]]]. split; [reflexivity|].
        exists p0, q0. auto.
Qed.

Lemma merged_into_names A B R :
  merged_into A B = Ok R -> names R = names A.
Proof.
  unfold merged_into. pose proof (merged_into_loop_spec (dict_of B) A []) as H.
  destruct (merged_into_loop (dict_of B) A []); simpl; [|discriminate].
  intros Hr. injection Hr as <-. destruct H as [R' [-> HF]]. simpl.
  apply Forall2_names. eapply Forall2_impl; [|exact HF].
  intros p r. cbv beta. destruct (dict_get (dict_of B) (name p)) as [q|]; [|intros ->; reflexivity].
  intros Hm. apply req_merged_some in Hm. tauto.
Qed.

(** C7: [A.merged_into(B)] keeps exactly the entries of [A], in order: an
    entry whose family is absent from [B] passes through unchanged, one whose
    family is in [B] carries the intersection of the two ranges; it fails
    with [VersionConflict] exactly when some shared family has disjoint
    ranges ([B] a constraint set: unique names). *)
Theorem merged_into_spec (A B : PackageList) (HB : NoDup (names B)) :
  match merged_into A B with
  | Ok R => ~ shared_empty A B /\ names R = names A /\
      Forall2 (fun a r => match find_req B (name a) with
                          | None => r = a
                          | Some b => name r = name a
                                      /\ intersection (range a) (range b) = Some (range r)
                          end) A R
  | Err e => e = VersionConflict /\ shared_empty A B
  end.
Proof.
  unfold merged_into. pose proof (merged_into_loop_spec (dict_of B) A []) as H.
  destruct (merged_into_loop (dict_of B) A []) as [R|e]; simpl.
  - destruct H as [R' [-> HF]]. simpl.
    assert (HF' : Forall2 (fun a r => match find_req B (name a) with
                          | None => r = a
                          | Some b => name r = name a
                                      /\ intersection (range a) (range b) = Some (range r)
                          end) A R').
    { eapply Forall2_impl; [|exact HF]. intros p r. cbv beta.
      rewrite dict_of_get by exact HB.
      destruct (find_req B (name p)) as [q|]; [|auto].
      intros Hm. apply req_merged_some in Hm. tauto. }
    split; [|split; [|exact HF']].
    + intros [a [b [Ha [Hb [Hn Hi]]]]].
      destruct (Forall2_in_l _ _ _ _ HF Ha) as [r [_ Hr]].
      rewrite Hn, dict_of_get, (find_req_in B b HB Hb) in Hr by exact HB.
      rewrite (req_merged_same a b Hn Hi) in Hr. discriminate.
    + apply Forall2_names. eapply Forall2_impl; [|exact HF'].
      intros a r. cbv beta. destruct (find_req B (name a)); [tauto|intros ->; reflexivity].
  - destruct H as [-> [p [q [Hin [Hg Hm]]]]]. split; [reflexivity|].
    apply dict_of_get_some in Hg as [Hq Hn].
    exists p, q. repeat split; auto.
    apply req_merged_none; auto.
Qed.

(** ** [PackageList.additive_merged] *)

Lemma additive_merged_loop_wf ps d d' :
  dict_wf d -> NoDup (dict_keys d) -> additive_merged_loop ps d = Ok d' ->
  dict_wf d' /\ NoDup (dict_keys d').
Proof.
  revert d. induction ps as [|p ps IH]; simpl; intros d Hwf Hnd Hl.
  - injection Hl as <-. auto.
  - destruct (dict_get d (name p)) as [q|] eqn:Hq.
    + destruct (req_merged p q) as [m|] eqn:Hm; [|discriminate].
      apply IH in Hl; [exact Hl| |apply dict_keys_set_NoDup; exact Hnd].
      apply dict_wf_set; [exact Hwf|]. simpl. apply req_merged_some in Hm. tauto.
    + apply IH in Hl; [exact Hl|apply dict_wf_set; auto|apply dict_keys_set_NoDup; exact Hnd].
Qed.

Lemma additive_merged_loop_spec ps d :
  NoDup (names ps) ->
  match additive_merged_loop ps d with
  | Ok d' =>
      (forall p q, In p ps -> dict_get d (name p) = Some q -> req_merged p q <> None) /\
      (forall n, dict_get d' n = match find_req ps n with
                                 | Some p => match dict_get d n with
                                             | Some q => req_merged p q
                                             | None => Some p
                                             end
                                 | None => dict_get d n
                                 end)
  | Err e => e = VersionConflict /\
      exists p q, In p ps /\ dict_get d (name p) = Some q /\ req_merged p q = None
  end.
Proof.
  revert d. induction ps as [|p ps IH]; cbn [additive_merged_loop]; intros d Hnd.
  - split; [intros ? ? []|intros n; reflexivity].
  - simpl in Hnd. inversion Hnd as [|? ? Hnin Hnd']; subst.
    (* one step of the loop, [v] being the value stored under [name p] *)
    assert (Hstep : forall v,
      (forall n, n <> name p -> dict_get (dict_set d (name p) v) n = dict_get d n) /\
      dict_get (dict_set d (name p) v) (name p) = Some v).
    { intros v. split.
      - intros n Hn. rewrite dict_get_set. apply String.eqb_neq in Hn. rewrite Hn. reflexivity.
      - rewrite dict_get_set, String.eqb_refl. reflexivity. }
    assert (Hother : forall p0, In p0 ps -> name p0 <> name p).
    { intros p0 Hin Heq. apply Hnin. rewrite <- Heq. apply names_in. exact Hin. }
    assert (Hfind : forall n, find_req (p :: ps) n
                              = if String.eqb (name p) n then Some p else find_req ps n)
      by reflexivity.
    assert (Hfp : find_req ps (name p) = None) by (apply find_req_none; exact Hnin).
    destruct (dict_get d (name p)) as [q|] eqn:Hq.
    + destruct (req_merged p q) as [m|] eqn:Hm.
      * rewrite req_eta. destruct (Hstep m) as [Hs1 Hs2].
        specialize (IH (dict_set d (name p) m) Hnd').
        destruct (additive_merged_loop ps (dict_set d (name p) m)) as [d'|e].
        -- destruct IH as [Hok Hget]. split.
           ++ intros p0 q0 [<-|Hin] Hg; [congruence|].
              apply (Hok p0 q0 Hin). rewrite Hs1 by (apply Hother; exact Hin). exact Hg.
           ++ intros n. rewrite Hget, Hfind.
              destruct (String.eqb (name p) n) eqn:E.
              ** apply String.eqb_eq in E. subst n. rewrite Hfp, Hs2, Hq. auto.
              ** apply String.eqb_neq in E. rewrite Hs1 by congruence. reflexivity.
        -- destruct IH as [-> [p0 [q0 [Hin [Hg Hm0]]]]]. split; [reflexivity|].
           exists p0, q0. rewrite Hs1 in Hg by (apply Hother; exact Hin).
           repeat split; [right; exact Hin|exact Hg|exact Hm0].
      * split; [reflexivity|]. exists p, q. repeat split; [left; reflexivity|exact Hq|exact Hm].
    + destruct (Hstep p) as [Hs1 Hs2].
      specialize (IH (dict_set d (name p) p) Hnd').
      destruct (additive_merged_loop ps (dict_set d (name p) p)) as [d'|e].
      * destruct IH as [Hok Hget]. split.
        -- intros p0 q0 [<-|Hin] Hg; [congruence|].
           apply (Hok p0 q0 Hin). rewrite Hs1 by (apply Hother; exact Hin). exact Hg.
        -- intros n. rewrite Hget, Hfind.
           destruct (String.eqb (name p) n) eqn:E.
           ++ apply String.eqb_eq in E. subst n. rewrite Hfp, Hs2, Hq. reflexivity.
           ++ apply String.eqb_neq in E. rewrite Hs1 by congruence. reflexivity.
      * destruct IH as [-> [p0 [q0 [Hin [Hg Hm0]]]]]. split; [reflexivity|].
        exists p0, q0. rewrite Hs1 in Hg by (apply Hother; exact Hin).
           repeat split; [right; exact Hin|exact Hg|exact Hm0].
Qed.

Lemma find_req_in_names l n :
  In n (names l) <-> exists p, find_req l n = Some p.
Proof.
  split.
  - intros Hin. destruct (find_req l n) as [p|] eqn:E; [eauto|].
    apply find_req_none in E. contradiction.
  - intros [p Hp]. apply find_req_some in Hp as [Hin <-]. apply names_in. exact Hin.
Qed.

(** C6: for constraint sets [A] and [B] (unique names), [A.additive_merged(B)]
    holds exactly the families of [A] and [B], once each; a shared family
    carries the intersection of its two ranges, a family of only one side
    keeps its entry; and the call fails with [VersionConflict] exactly when
    some shared family has disjoint ranges. *)
Theorem additive_merged_spec (A B : PackageList)
  (HA : NoDup (names A)) (HB : NoDup (names B)) :
  match additive_merged A B with
  | Ok R => ~ shared_empty A B /\ NoDup (names R) /\
      (forall n, In n (names R) <-> In n (names A) \/ In n (names B)) /\
      (forall a b, In a A -> In b B -> name a = name b ->
         exists r, find_req R (name a) = Some r
                   /\ intersection (range a) (range b) = Some (range r)) /\
      (forall a, In a A -> ~ In (name a) (names B) -> find_req R (name a) = Some a) /\
      (forall b, In b B -> ~ In (name b) (names A) -> find_req R (name b) = Some b)
  | Err e => e = VersionConflict /\ shared_empty A B
  end.
Proof.
  unfold additive_merged. destruct (dict_of_wf A) as [Hwf0 Hnd0].
  pose proof (additive_merged_loop_spec B (dict_of A) HB) as H.
  destruct (additive_merged_loop B (dict_of A)) as [d'|e] eqn:El; simpl.
  - destruct (additive_merged_loop_wf _ _ _ Hwf0 Hnd0 El) as [Hwf Hnd].
    destruct H as [Hok Hget].
    assert (HfR : forall n, find_req (dict_values d') n
                            = match find_req B n with
                              | Some b => match find_req A n with
                                          | Some a => req_merged b a
                                          | None => Some b
                                          end
                              | None => find_req A n
                              end).
    { intros n. rewrite dict_wf_find by exact Hwf. rewrite Hget, !dict_of_get by exact HA.
      reflexivity. }
    assert (Hnc : forall a b, In a A -> In b B -> name a = name b -> req_merged b a <> None).
    { intros a b Ha Hb Hn. apply (Hok b a Hb). rewrite dict_of_get by exact HA.
      rewrite <- Hn. apply find_req_in; assumption. }
    unfold PackageList_init.
    split; [|split; [|split; [|split; [|split]]]].
    + intros [a [b [Ha [Hb [Hn Hi]]]]]. apply (Hnc a b Ha Hb Hn).
      apply req_merged_same; [congruence|]. rewrite intersection_comm. exact Hi.
    + rewrite dict_wf_names by exact Hwf. exact Hnd.
    + intros n. rewrite !find_req_in_names, HfR.
      destruct (find_req B n) as [b|] eqn:Eb.
      * apply find_req_some in Eb as [Hb Hbn]. split; [intros _; right; eauto|intros _].
        destruct (find_req A n) as [a|] eqn:Ea; [|eauto].
        apply find_req_some in Ea as [Ha Han].
        destruct (req_merged b a) as [m|] eqn:Hm; [eauto|].
        exfalso. apply (Hnc a b Ha Hb); congruence.
      * split; [intros H; left; exact H|].
        intros [H|[b Hb]]; [exact H|discriminate].
    + intros a b Ha Hb Hn. rewrite HfR.
      rewrite (find_req_in A a HA Ha), Hn, (find_req_in B b HB Hb).
      destruct (req_merged b a) as [m|] eqn:Hm.
      * exists m. split; [reflexivity|].
        apply req_merged_some in Hm as [_ [_ Hi]]. rewrite intersection_comm. exact Hi.
      * exfalso. apply (Hnc a b Ha Hb Hn Hm).
    + intros a Ha Hnb. rewrite HfR, (proj2 (find_req_none B (name a)) Hnb).
      apply find_req_in; assumption.
    + intros b Hb Hna. rewrite HfR, (find_req_in B b HB Hb),
        (proj2 (find_req_none A (name b)) Hna). reflexivity.
  - destruct H as [-> [p [q [Hin [Hg Hm]]]]]. split; [reflexivity|].
    apply dict_of_get_some in Hg as [Hq Hn].
    exists q, p. repeat split; auto.
    rewrite intersection_comm. apply req_merged_none; [congruence|exact Hm].
Qed.

(** ** Unique names in a [PackageList] *)

Lemma NoDup_snoc {X} (l : list X) x : NoDup l -> ~ In x l -> NoDup (l ++ [x]).
Proof.
  induction l as [|y l IH]; simpl; intros Hnd Hnin.
  - constructor; [intros []|constructor].
  - inversion Hnd as [|? ? Hy Hnd']; subst. constructor.
    + rewrite in_app_iff. simpl. intuition.
    + apply IH; intuition.
Qed.

Lemma names_app l1 l2 : names (l1 ++ l2) = names l1 ++ names l2.
Proof. apply map_app. Qed.

Lemma merged_loop_NoDup d ps acc R :
  NoDup (names ps) -> NoDup (names acc) ->
  (forall x, In x (names acc) -> ~ In x (names ps)) ->
  merged_loop d ps acc = Ok R -> NoDup (names R).
Proof.
  revert acc. induction ps as [|p ps IH]; simpl; intros acc Hps Hacc Hdis Hl.
  - injection Hl as <-. exact Hacc.
  - inversion Hps as [|? ? Hnin Hps']; subst.
    destruct (dict_get d (name p)) as [q|].
    + destruct (req_merged p q) as [m|] eqn:Hm; [|discriminate].
      apply req_merged_some in Hm as [Hmn _]. rewrite req_eta in Hl.
      apply (IH (acc ++ [m]) Hps'); [| |exact Hl].
      * rewrite names_app. simpl. rewrite Hmn. apply NoDup_snoc; [exact Hacc|].
        intros Hin. apply (Hdis _ Hin). left; reflexivity.
      * intros x Hx. rewrite names_app in Hx. simpl in Hx. rewrite Hmn in Hx.
        apply in_app_or in Hx as [Hx|[<-|[]]]; [|exact Hnin].
        intros Hin. apply (Hdis _ Hx). right; exact Hin.
    + apply (IH acc Hps' Hacc); [|exact Hl].
      intros x Hx Hin. apply (Hdis _ Hx). right; exact Hin.
Qed.

Lemma add_constraint_loop_names rhs ps acc found result found' :
  add_constraint_loop rhs ps acc found = Ok (result, found') ->
  names result = names acc ++ names ps
  /\ (found' = true <-> found = true \/ In (name rhs) (names ps)).
Proof.
  revert acc found. induction ps as [|p ps IH]; simpl; intros acc found Hl.
  - injection Hl as <- <-. rewrite app_nil_r. intuition.
  - destruct (String.eqb (name rhs) (name p)) eqn:E.
    + destruct (req_merged p rhs) as [m|] eqn:Hm; [|discriminate].
      apply req_merged_some in Hm as [Hmn _].
      apply IH in Hl as [Hn Hf]. rewrite Hn, names_app. simpl. rewrite Hmn, <- app_assoc.
      split; [reflexivity|]. apply String.eqb_eq in E. intuition.
    + apply IH in Hl as [Hn Hf]. rewrite Hn, names_app, <- app_assoc.
      split; [reflexivity|]. apply String.eqb_neq in E. rewrite Hf. intuition.
Qed.

(** C8 (as the code has it): [PackageList] does not enforce unique names. The
    constructor keeps a literal list as given and [__add__] concatenates, so
    both can hold two entries of one family. *)
Lemma PackageList_duplicate_names :
  ~ NoDup (names (PackageList_init [x_1; x_2]))
  /\ ~ NoDup (names (PackageList_add [x_1] [x_1])).
Proof.
  split; simpl; intros H; inversion H as [|? ? Hin _]; apply Hin; left; reflexivity.
Qed.

(** C8, amended: [additive_merged] always returns unique names;
    [merged_into], [constrained] and [add_constraint] return unique names when
    [self] has them; [merged] returns unique names when its argument [rhs]
    has them. *)
Theorem PackageList_unique_names_preserved :
  (forall A B R, additive_merged A B = Ok R -> NoDup (names R)) /\
  (forall A B R, NoDup (names A) -> merged_into A B = Ok R -> NoDup (names R)) /\
  (forall A r, NoDup (names A) -> NoDup (names (constrained A r))) /\
  (forall A r R, NoDup (names A) -> add_constraint A r = Ok R -> NoDup (names R)) /\
  (forall A B R, NoDup (names B) -> merged A B = Ok R -> NoDup (names R)).
Proof.
  split; [|split; [|split; [|split]]].
  - intros A B R. unfold additive_merged.
    destruct (additive_merged_loop B (dict_of A)) as [d'|] eqn:El; simpl; [|discriminate].
    intros Hr. injection Hr as <-. destruct (dict_of_wf A) as [Hwf0 Hnd0].
    destruct (additive_merged_loop_wf _ _ _ Hwf0 Hnd0 El) as [Hwf Hnd].
    unfold PackageList_init. rewrite dict_wf_names by exact Hwf. exact Hnd.
  - intros A B R HA Hm. rewrite (merged_into_names A B R Hm). exact HA.
  - intros A r HA. unfold constrained, PackageList_init, names.
    rewrite map_map.
    replace (map (fun x => name (if String.eqb (name r) (name x)
                                 then mkReq (name x) _ else x)) A) with (names A);
      [exact HA|].
    unfold names. apply map_ext. intros p. destruct (String.eqb (name r) (name p)); reflexivity.
  - intros A r R HA. unfold add_constraint.
    destruct (add_constraint_loop r A [] false) as [[result found]|] eqn:El; simpl;
      [|discriminate].
    intros Hr. injection Hr as <-. apply add_constraint_loop_names in El as [Hn Hf].
    simpl in Hn. unfold PackageList_init.
    destruct found.
    + rewrite Hn. exact HA.
    + rewrite names_app, Hn. simpl. apply NoDup_snoc; [exact HA|].
      intros Hin. assert (H : false = true) by (apply Hf; right; exact Hin). discriminate.
  - intros A B R HB. unfold merged.
    destruct (merged_loop (dict_of A) B []) as [result|] eqn:El; simpl; [|discriminate].
    intros Hr. injection Hr as <-.
    apply (merged_loop_NoDup (dict_of A) B [] result HB (NoDup_nil _)); [|exact El].
    intros x [].
Qed.

(** Witnesses of C6 and C7. *)
Lemma additive_merged_spec_witness :
  NoDup (names [x_1; req "y" 0 None]) /\ NoDup (names [req "x" 0 (Some 5)]) /\
  match additive_merged [x_1; req "y" 0 None] [req "x" 0 (Some 5)] with
  | Ok R => ~ shared_empty [x_1; req "y" 0 None] [req "x" 0 (Some 5)] /\ NoDup (names R) /\
      (forall n, In n (names R) <-> In n (names [x_1; req "y" 0 None])
                                    \/ In n (names [req "x" 0 (Some 5)])) /\
      (forall a b, In a [x_1; req "y" 0 None] -> In b [req "x" 0 (Some 5)] -> name a = name b ->
         exists r, find_req R (name a) = Some r
                   /\ intersection (range a) (range b) = Some (range r)) /\
      (forall a, In a [x_1; req "y" 0 None] -> ~ In (name a) (names [req "x" 0 (Some 5)]) ->
         find_req R (name a) = Some a) /\
      (forall b, In b [req "x" 0 (Some 5)] -> ~ In (name b) (names [x_1; req "y" 0 None]) ->
         find_req R (name b) = Some b)
  | Err e => e = VersionConflict /\ shared_empty [x_1; req "y" 0 None] [req "x" 0 (Some 5)]
  end.
Proof.
  assert (HA : NoDup (names [x_1; req "y" 0 None])).
  { simpl. constructor; [simpl; intros [H|[]]; discriminate|constructor; [intros []|constructor]]. }
  assert (HB : NoDup (names [req "x" 0 (Some 5)])).
  { simpl. constructor; [intros []|constructor]. }
  split; [exact HA|split; [exact HB|]].
  exact (additive_merged_spec [x_1; req "y" 0 None] [req "x" 0 (Some 5)] HA HB).
Defined.

Lemma merged_into_spec_witness :
  NoDup (names [req "x" 0 (Some 5)]) /\
  match merged_into [x_1; req "y" 0 None] [req "x" 0 (Some 5)] with
  | Ok R => ~ shared_empty [x_1; req "y" 0 None] [req "x" 0 (Some 5)]
      /\ names R = names [x_1; req "y" 0 None] /\
      Forall2 (fun a r => match find_req [req "x" 0 (Some 5)] (name a) with
                          | None => r = a
                          | Some b => name r = name a
                                      /\ intersection (range a) (range b) = Some (range r)
                          end) [x_1; req "y" 0 None] R
  | Err e => e = VersionConflict /\ shared_empty [x_1; req "y" 0 None] [req "x" 0 (Some 5)]
  end.
Proof.
  assert (HB : NoDup (names [req "x" 0 (Some 5)])).
  { simpl. constructor; [intros []|constructor]. }
  split; [exact HB|]. exact (merged_into_spec [x_1; req "y" 0 None] _ HB).
Defined.

(** ** Errors of the resolver *)

Lemma additive_merged_loop_error ps d e :
  additive_merged_loop ps d = Err e -> e = VersionConflict.
Proof.
  revert d. induction ps as [|p ps IH]; simpl; intros d H; [discriminate|].
  destruct (dict_get d (name p)); [destruct (req_merged p p0)|]; try congruence; eauto.
Qed.

Lemma additive_merged_error A B e : additive_merged A B = Err e -> e = VersionConflict.
Proof.
  unfold additive_merged. destruct (additive_merged_loop B (dict_of A)) eqn:E; simpl;
    [discriminate|]. intros H; injection H as <-. eapply additive_merged_loop_error; eauto.
Qed.

Lemma add_constraint_error A r e : add_constraint A r = Err e -> e = VersionConflict.
Proof.
  unfold add_constraint.
  assert (H : forall ps acc f, add_constraint_loop r ps acc f = Err e -> e = VersionConflict).
  { induction ps as [|p ps IH]; simpl; intros acc f H; [discriminate|].
    destruct (String.eqb (name r) (name p)); [destruct (req_merged p r)|]; try congruence; eauto. }
  destruct (add_constraint_loop r A [] false) as [[]|] eqn:E; simpl; [discriminate|].
  intros Hi; injection Hi as <-. eauto.
Qed.

Lemma add_constraints_error cs ps e : add_constraints cs ps = Err e -> e = VersionConflict.
Proof.
  revert cs. induction ps as [|p ps IH]; simpl; intros cs H; [discriminate|].
  destruct (add_constraint cs p) eqn:E; simpl in H; eauto.
  injection H as <-. eapply add_constraint_error; eauto.
Qed.

Lemma merged_requires_of_error recipe e :
  merged_requires_of recipe = Err e -> e = VersionConflict.
Proof.
  unfold merged_requires_of.
  destruct (additive_merged (build_requires recipe) (requires recipe)) eqn:E; simpl.
  - apply additive_merged_error.
  - intros H; injection H as <-. eapply additive_merged_error; eauto.
Qed.

Lemma hdc_alternatives_only_VC check cs RECIPES p recs st :
  (forall rec cs' fdc, only_VC (check rec cs' RECIPES fdc)) ->
  only_VC (hdc_alternatives check cs RECIPES p recs st).
Proof.
  intros Hc. revert st. induction recs as [|rec recs IH]; simpl; intros st; [exact I|].
  destruct (req_conflicts_with (pkg rec) p); [apply IH|].
  destruct st as [ac fdc]. specialize (Hc rec cs fdc).
  destruct (check rec cs RECIPES fdc) as [[[c fdc']|e]|]; simpl in *; auto.
Qed.

Lemma hdc_entries_only_VC check cs RECIPES ps st :
  (forall rec cs' fdc, only_VC (check rec cs' RECIPES fdc)) ->
  only_VC (hdc_entries check cs RECIPES ps st).
Proof.
  intros Hc. revert st. induction ps as [|p ps IH]; simpl; intros st; [exact I|].
  destruct (dict_get RECIPES (name p)) as [recs|]; [|apply IH].
  pose proof (hdc_alternatives_only_VC check cs RECIPES p recs st Hc) as H.
  destruct (hdc_alternatives check cs RECIPES p recs st) as [[st'|e]|]; simpl in *; auto.
Qed.

(** [has_dependency_conflict] raises nothing but [VersionConflict]. *)
Lemma has_dependency_conflict_only_VC fuel recipe cs RECIPES fdc :
  only_VC (has_dependency_conflict fuel recipe cs RECIPES fdc).
Proof.
  revert recipe cs fdc. induction fuel as [|n IH]; intros recipe cs fdc; simpl; [exact I|].
  destruct (conflicts_with_package_list recipe cs); [exact I|].
  destruct (additive_merged (build_requires recipe) (requires recipe)) as [merged|e] eqn:E;
    simpl; [|eapply additive_merged_error; eauto].
  destruct (negb (Nat.eqb (length merged) 0)); [|exact I].
  apply hdc_entries_only_VC. intros. apply IH.
Qed.

Lemma resolve_candidates_raises recurse check RECIPES chain p recs st :
  (forall rec cs ch, raises_VC_or_Runtime (recurse rec cs RECIPES ch)) ->
  (forall rec cs ch, only_VC (check rec cs RECIPES ch)) ->
  raises_VC_or_Runtime (resolve_candidates recurse check RECIPES chain p recs st).
Proof.
  intros Hr Hc. revert st. induction recs as [|rec recs IH]; simpl; intros st; [exact I|].
  destruct st as [[[nd cs] fa] fl].
  destruct (req_conflicts_with (pkg rec) p); [apply IH|].
  specialize (Hc rec cs chain).
  destruct (check rec cs RECIPES chain) as [[[c fc]|e]|]; simpl in *; auto.
  destruct c; [apply IH|].
  specialize (Hr rec cs (chain ++ [CPkg (pkg rec)])).
  destruct (recurse rec cs RECIPES (chain ++ [CPkg (pkg rec)])) as [[[dr cs']|e]|];
    simpl in *; auto.
Qed.

Lemma resolve_entries_raises recurse check RECIPES chain ps st :
  (forall rec cs ch, raises_VC_or_Runtime (recurse rec cs RECIPES ch)) ->
  (forall rec cs ch, only_VC (check rec cs RECIPES ch)) ->
  raises_VC_or_Runtime (resolve_entries recurse check RECIPES chain ps st).
Proof.
  intros Hr Hc. revert st. induction ps as [|p ps IH]; simpl; intros st; [exact I|].
  destruct st as [nd cs].
  destruct (dict_get RECIPES (name p)) as [recs|]; simpl; [|eauto].
  pose proof (resolve_candidates_raises recurse check RECIPES chain p recs (nd, cs, false, [])
                Hr Hc) as H.
  destruct (resolve_candidates recurse check RECIPES chain p recs (nd, cs, false, []))
    as [[[[[nd' cs'] fa] fl]|e]|]; simpl in *; auto.
  destruct fa; simpl; eauto.
Qed.

(** [build_dependency_tree] raises [VersionConflict] or [RuntimeError] only:
    never the declared [RecipeNotFound] or [DependencyConflict]. *)
Lemma build_dependency_tree_raises fuel recipe cs RECIPES chain :
  raises_VC_or_Runtime (build_dependency_tree fuel recipe cs RECIPES chain).
Proof.
  revert recipe cs chain. induction fuel as [|n IH]; intros recipe cs chain; simpl; [exact I|].
  destruct (merged_requires_of recipe) as [mr|e] eqn:E; simpl;
    [|left; eapply merged_requires_of_error; eauto].
  destruct (add_constraints cs mr) as [cs'|e] eqn:E'; simpl;
    [|left; eapply add_constraints_error; eauto].
  apply resolve_entries_raises; [intros; apply IH|intros; apply has_dependency_conflict_only_VC].
Qed.

Lemma resolve_entries_ok_in_catalog recurse check RECIPES chain ps st r :
  resolve_entries recurse check RECIPES chain ps st = Some (Ok r) ->
  forall p, In p ps -> dict_get RECIPES (name p) <> None.
Proof.
  revert st. induction ps as [|p0 ps IH]; simpl; intros st H p Hin; [contradiction|].
  destruct st as [nd cs].
  destruct (dict_get RECIPES (name p0)) as [recs|] eqn:Ec; [|discriminate].
  destruct (resolve_candidates recurse check RECIPES chain p0 recs (nd, cs, false, []))
    as [[[[[nd' cs'] fa] fl]|e]|]; simpl in H; try discriminate.
  destruct fa; simpl in H; [|discriminate].
  destruct Hin as [<-|Hin]; [congruence|eauto].
Qed.

(** C3 (as the code has it): a family absent from the catalog makes
    [build_dependency_tree] raise [RuntimeError], not [RecipeNotFound]. *)
Lemma missing_family_raises_RuntimeError :
  build_dependency_tree 1 root_x [] [] []
    = Some (Err (RuntimeError (CouldNotFindRecipe (req "x" 0 None))))
  /\ build_dependency_tree 1 root_x [] [] [] <> Some (Err RecipeNotFound).
Proof. split; [reflexivity|discriminate]. Qed.

(** C3, amended: when an entry of the merged requirement list names a family
    absent from the catalog, [build_dependency_tree] never returns a result;
    reaching that entry raises [RuntimeError("Could not find a recipe for
    ...")], and whatever it raises is a [VersionConflict] or a
    [RuntimeError], never [RecipeNotFound]. *)
Theorem build_dependency_tree_missing_family (fuel : nat) (recipe : Recipe)
  (constraints : PackageList) (RECIPES : Catalog) (chain : Chain)
  (mr : PackageList) (p : PackageRequest)
  (Hmr : merged_requires_of recipe = Ok mr) (Hin : In p mr)
  (Hmiss : dict_get RECIPES (name p) = None) :
  (forall r, build_dependency_tree fuel recipe constraints RECIPES chain <> Some (Ok r))
  /\ raises_VC_or_Runtime (build_dependency_tree fuel recipe constraints RECIPES chain)
  /\ (forall ps st, resolve_entries (build_dependency_tree fuel) (has_dependency_conflict fuel)
                      RECIPES chain (p :: ps) st
                    = mraise (RuntimeError (CouldNotFindRecipe p))).
Proof.
  split; [|split; [apply build_dependency_tree_raises|]].
  - intros r. destruct fuel as [|n]; simpl; [discriminate|].
    rewrite Hmr. simpl. destruct (add_constraints constraints mr) as [cs'|e]; simpl; [|discriminate].
    intros H. apply (resolve_entries_ok_in_catalog _ _ _ _ _ _ _ H p Hin). exact Hmiss.
  - intros ps [nd cs]. simpl. rewrite Hmiss. reflexivity.
Qed.

Lemma build_dependency_tree_missing_family_witness :
  merged_requires_of root_x = Ok [req "x" 0 None] /\ In (req "x" 0 None) [req "x" 0 None]
  /\ dict_get ([] : Catalog) (name (req "x" 0 None)) = None
  /\ ((forall r, build_dependency_tree 1 root_x [] [] [] <> Some (Ok r))
      /\ raises_VC_or_Runtime (build_dependency_tree 1 root_x [] [] [])
      /\ (forall ps st, resolve_entries (build_dependency_tree 1) (has_dependency_conflict 1)
                          [] [] (req "x" 0 None :: ps) st
                        = mraise (RuntimeError (CouldNotFindRecipe (req "x" 0 None))))).
Proof.
  split; [reflexivity|split; [left; reflexivity|split; [reflexivity|]]].
  apply (build_dependency_tree_missing_family 1 root_x [] [] [] [req "x" 0 None]);
    [reflexivity|left; reflexivity|reflexivity].
Defined.

(** ** Candidates all rejected *)

Lemma resolve_candidates_all_rejected recurse check RECIPES chain p recs nd cs fa failed
  (fc : Recipe -> Chain) :
  (forall rec, In rec recs -> req_conflicts_with (pkg rec) p = false ->
     check rec cs RECIPES chain = Some (Ok (true, fc rec))) ->
  resolve_candidates recurse check RECIPES chain p recs (nd, cs, fa, failed)
  = mret (nd, cs, fa,
          failed ++ map fc (filter (fun rec => negb (req_conflicts_with (pkg rec) p)) recs)).
Proof.
  revert failed. induction recs as [|rec recs IH]; simpl; intros failed Hrej.
  - rewrite app_nil_r. reflexivity.
  - destruct (req_conflicts_with (pkg rec) p) eqn:E; simpl.
    + apply IH. intros r Hr. apply Hrej. right; exact Hr.
    + rewrite (Hrej rec (or_introl eq_refl) E). simpl.
      rewrite IH by (intros r Hr; apply Hrej; right; exact Hr).
      rewrite <- app_assoc. reflexivity.
Qed.

(** C4 (as the code has it): when every candidate is rejected the resolver
    raises [RuntimeError], not [DependencyConflict]. *)
Lemma all_rejected_raises_RuntimeError :
  build_dependency_tree 2 root_x [y_2] catalog_xy []
    = Some (Err (RuntimeError
                   (CouldNotFindSuitableRecipe (req "x" 0 None) [[CBool true]])))
  /\ build_dependency_tree 2 root_x [y_2] catalog_xy [] <> Some (Err DependencyConflict).
Proof. split; [reflexivity|discriminate]. Qed.

(** C4, amended: when the loop over the merged requirements reaches a family
    all of whose candidates are filtered out by the request check or rejected
    by [has_dependency_conflict], [build_dependency_tree] raises
    [RuntimeError("Could not find suitable recipe for ...")] carrying the
    failure chains of the candidates rejected by [has_dependency_conflict],
    in catalog order; it never raises [DependencyConflict]. *)
Theorem resolve_entries_all_candidates_rejected (fuel : nat) (RECIPES : Catalog)
  (chain : Chain) (p : PackageRequest) (ps : PackageList) (new_deps : Deps)
  (constraints : PackageList) (recs : list Recipe) (fc : Recipe -> Chain)
  (Hcat : dict_get RECIPES (name p) = Some recs)
  (Hrej : forall rec, In rec recs -> req_conflicts_with (pkg rec) p = false ->
            has_dependency_conflict fuel rec constraints RECIPES chain
            = Some (Ok (true, fc rec))) :
  resolve_entries (build_dependency_tree fuel) (has_dependency_conflict fuel) RECIPES chain
                  (p :: ps) (new_deps, constraints)
  = mraise (RuntimeError (CouldNotFindSuitableRecipe p
      (map fc (filter (fun rec => negb (req_conflicts_with (pkg rec) p)) recs))))
  /\ (forall recipe cs ch, raises_VC_or_Runtime (build_dependency_tree fuel recipe cs RECIPES ch)).
Proof.
  split; [|intros; apply build_dependency_tree_raises].
  simpl. rewrite Hcat.
  rewrite (resolve_candidates_all_rejected _ _ _ _ _ _ _ _ _ _ fc Hrej). reflexivity.
Qed.

Lemma resolve_entries_all_candidates_rejected_witness :
  dict_get catalog_xy (name (req "x" 0 None)) = Some [rec_xy]
  /\ (forall rec, In rec [rec_xy] -> req_conflicts_with (pkg rec) (req "x" 0 None) = false ->
        has_dependency_conflict 1 rec [y_2] catalog_xy [] = Some (Ok (true, [CBool true])))
  /\ (resolve_entries (build_dependency_tree 1) (has_dependency_conflict 1) catalog_xy []
                      [req "x" 0 None] ([], [y_2])
      = mraise (RuntimeError (CouldNotFindSuitableRecipe (req "x" 0 None)
          (map (fun _ => [CBool true])
               (filter (fun rec => negb (req_conflicts_with (pkg rec) (req "x" 0 None)))
                       [rec_xy]))))
      /\ (forall recipe cs ch,
            raises_VC_or_Runtime (build_dependency_tree 1 recipe cs catalog_xy ch))).
Proof.
  assert (Hrej : forall rec, In rec [rec_xy] ->
            req_conflicts_with (pkg rec) (req "x" 0 None) = false ->
            has_dependency_conflict 1 rec [y_2] catalog_xy [] = Some (Ok (true, [CBool true]))).
  { intros rec [<-|[]] _. reflexivity. }
  split; [reflexivity|split; [exact Hrej|]].
  exact (resolve_entries_all_candidates_rejected 1 catalog_xy [] (req "x" 0 None) [] []
           [y_2] [rec_xy] (fun _ => [CBool true]) eq_refl Hrej).
Defined.

(** ** Every passing candidate is taken *)

Lemma mem_recipe_app_l r l1 l2 :
  mem_recipe r l1 = true -> mem_recipe r (l1 ++ l2) = true.
Proof. unfold mem_recipe. rewrite existsb_app. intros ->. reflexivity. Qed.

Lemma mem_recipe_snoc r l : mem_recipe r (l ++ [r]) = true.
Proof.
  unfold mem_recipe. rewrite existsb_app. simpl. rewrite Nat.eqb_refl, orb_true_r. reflexivity.
Qed.

Lemma append_missing_mem r existing drs :
  mem_recipe r existing = true -> mem_recipe r (append_missing existing drs) = true.
Proof.
  unfold append_missing. revert existing. induction drs as [|dr drs IH]; simpl; intros ex H;
    [exact H|].
  apply IH. destruct (mem_recipe dr ex); [exact H|apply mem_recipe_app_l; exact H].
Qed.

Lemma recorded_set nd n k v r :
  recorded nd n r -> (n = k -> mem_recipe r v = true) -> recorded (dict_set nd k v) n r.
Proof.
  intros [l [Hl Hm]] Hv. unfold recorded. rewrite dict_get_set.
  destruct (String.eqb n k) eqn:E.
  - apply String.eqb_eq in E. exists v. auto.
  - exists l. auto.
Qed.

Lemma merge_deps_recorded nd dr n r :
  recorded nd n r -> recorded (merge_deps nd dr) n r.
Proof.
  unfold merge_deps. revert nd. induction dr as [|[k recs] dr IH]; simpl; intros nd H; [exact H|].
  apply IH. destruct (dict_get nd k) as [ex|] eqn:Ek; apply recorded_set; auto; intros ->.
  - destruct H as [l [Hl Hm]]. rewrite Ek in Hl. injection Hl as ->.
    apply append_missing_mem. exact Hm.
  - destruct H as [l [Hl _]]. congruence.
Qed.

Lemma add_recipe_recorded nd rec n r :
  recorded nd n r -> recorded (add_recipe nd rec) n r.
Proof.
  unfold add_recipe. intros H.
  destruct (dict_get nd (name (pkg rec))) as [l|] eqn:El.
  - destruct (mem_recipe rec l); [exact H|]. apply recorded_set; [exact H|].
    intros ->. destruct H as [l' [Hl' Hm]]. rewrite El in Hl'. injection Hl' as ->.
    apply mem_recipe_app_l. exact Hm.
  - apply recorded_set; [exact H|]. intros ->. destruct H as [l' [Hl' _]]. congruence.
Qed.

Lemma add_recipe_self nd rec : recorded (add_recipe nd rec) (name (pkg rec)) rec.
Proof.
  unfold add_recipe, recorded.
  destruct (dict_get nd (name (pkg rec))) as [l|] eqn:El.
  - destruct (mem_recipe rec l) eqn:Em; [exists l; auto|].
    rewrite dict_get_set, String.eqb_refl. exists (l ++ [rec]). split; [reflexivity|].
    apply mem_recipe_snoc.
  - rewrite dict_get_set, String.eqb_refl. exists [rec]. split; [reflexivity|].
    unfold mem_recipe. simpl. rewrite Nat.eqb_refl. reflexivity.
Qed.

Lemma resolve_candidates_keeps recurse check RECIPES chain p recs nd cs fa fl
  nd' cs' fa' fl' n r :
  resolve_candidates recurse check RECIPES chain p recs (nd, cs, fa, fl)
    = Some (Ok (nd', cs', fa', fl')) ->
  (recorded nd n r -> recorded nd' n r) /\ (fa = true -> fa' = true).
Proof.
  revert nd cs fa fl. induction recs as [|rec recs IH]; simpl; intros nd cs fa fl H.
  - injection H as <- <- <- <-. auto.
  - destruct (req_conflicts_with (pkg rec) p); [eapply IH; exact H|].
    destruct (check rec cs RECIPES chain) as [[[c fc]|e]|]; simpl in H; try discriminate.
    destruct c; [eapply IH; exact H|].
    destruct (recurse rec cs RECIPES (chain ++ [CPkg (pkg rec)])) as [[[dr cs1]|e]|];
      simpl in H; try discriminate.
    apply IH in H as [H1 H2]. split; [|auto].
    intros Hr. apply H1. apply add_recipe_recorded. apply merge_deps_recorded. exact Hr.
Qed.

(** C2 (as the code has it): with two candidates for [x] that pass the
    checks, the resolver recurses into both and lists both under [x]. *)
Lemma both_passing_candidates_selected :
  build_dependency_tree 2 root_x [] catalog_x12 []
    = Some (Ok ([("x", [rec_x1; rec_x2])], [req "x" 0 None])).
Proof. reflexivity. Qed.

(** C2, amended: the resolver does not stop at the first candidate that
    passes the checks. A candidate that passes them (against the constraints
    as they stand when it is reached) is recursed into and added under its
    family, and the loop goes on with the remaining candidates, in catalog
    order; if the loop completes, that candidate is in the result. *)
Theorem resolve_candidates_takes_every_passing_candidate (fuel : nat) (RECIPES : Catalog)
  (chain : Chain) (p : PackageRequest) (rec : Recipe) (recs : list Recipe)
  (new_deps : Deps) (constraints : PackageList) (found_any : bool) (failed : list Chain)
  (fc : Chain) (dep_recipes : Deps) (constraints' : PackageList)
  (Hreq : req_conflicts_with (pkg rec) p = false)
  (Hchk : has_dependency_conflict fuel rec constraints RECIPES chain = Some (Ok (false, fc)))
  (Hrec : build_dependency_tree fuel rec constraints RECIPES (chain ++ [CPkg (pkg rec)])
          = Some (Ok (dep_recipes, constraints'))) :
  resolve_candidates (build_dependency_tree fuel) (has_dependency_conflict fuel) RECIPES chain p
    (rec :: recs) (new_deps, constraints, found_any, failed)
  = resolve_candidates (build_dependency_tree fuel) (has_dependency_conflict fuel) RECIPES chain p
      recs (add_recipe (merge_deps new_deps dep_recipes) rec, constraints', true, failed)
  /\ (forall nd cs fa fl,
        resolve_candidates (build_dependency_tree fuel) (has_dependency_conflict fuel) RECIPES
          chain p (rec :: recs) (new_deps, constraints, found_any, failed)
        = Some (Ok (nd, cs, fa, fl)) ->
        fa = true /\ recorded nd (name (pkg rec)) rec).
Proof.
  assert (Hstep : resolve_candidates (build_dependency_tree fuel) (has_dependency_conflict fuel)
                    RECIPES chain p (rec :: recs) (new_deps, constraints, found_any, failed)
                  = resolve_candidates (build_dependency_tree fuel) (has_dependency_conflict fuel)
                      RECIPES chain p recs
                      (add_recipe (merge_deps new_deps dep_recipes) rec, constraints', true, failed)).
  { simpl. rewrite Hreq, Hchk. simpl. rewrite Hrec. reflexivity. }
  split; [exact Hstep|].
  intros nd cs fa fl H. rewrite Hstep in H.
  apply (resolve_candidates_keeps _ _ _ _ _ _ _ _ _ _ _ _ _ _ (name (pkg rec)) rec) in H
    as [H1 H2].
  split; [auto|]. apply H1. apply add_recipe_self.
Qed.

Lemma resolve_candidates_takes_every_passing_candidate_witness :
  req_conflicts_with (pkg rec_x1) (req "x" 0 None) = false
  /\ has_dependency_conflict 1 rec_x1 [req "x" 0 None] catalog_x12 [] = Some (Ok (false, []))
  /\ build_dependency_tree 1 rec_x1 [req "x" 0 None] catalog_x12 ([] ++ [CPkg (pkg rec_x1)])
     = Some (Ok ([], [req "x" 0 None]))
  /\ (resolve_candidates (build_dependency_tree 1) (has_dependency_conflict 1) catalog_x12 []
        (req "x" 0 None) [rec_x1; rec_x2] ([], [req "x" 0 None], false, [])
      = resolve_candidates (build_dependency_tree 1) (has_dependency_conflict 1) catalog_x12 []
          (req "x" 0 None) [rec_x2]
          (add_recipe (merge_deps [] []) rec_x1, [req "x" 0 None], true, [])
      /\ (forall nd cs fa fl,
            resolve_candidates (build_dependency_tree 1) (has_dependency_conflict 1) catalog_x12
              [] (req "x" 0 None) [rec_x1; rec_x2] ([], [req "x" 0 None], false, [])
            = Some (Ok (nd, cs, fa, fl)) ->
            fa = true /\ recorded nd (name (pkg rec_x1)) rec_x1)).
Proof.
  split; [reflexivity|split; [reflexivity|split; [reflexivity|]]].
  exact (resolve_candidates_takes_every_passing_candidate 1 catalog_x12 [] (req "x" 0 None)
           rec_x1 [rec_x2] [] [req "x" 0 None] false [] [] [] [req "x" 0 None]
           eq_refl eq_refl eq_refl).
Defined.

(** ** Requirement cycles *)

Lemma hdc_self_cycle_diverges (rec : Recipe) (constraints : PackageList) (RECIPES : Catalog)
  (q : PackageRequest) (rest : PackageList) (others : list Recipe) :
  additive_merged (build_requires rec) (requires rec) = Ok (q :: rest) ->
  dict_get RECIPES (name q) = Some (rec :: others) ->
  req_conflicts_with (pkg rec) q = false ->
  conflicts_with_package_list rec constraints = false ->
  forall fuel fdc, has_dependency_conflict fuel rec constraints RECIPES fdc = None.
Proof.
  intros Hmerged Hcat Hq Hc fuel. induction fuel as [|n IH]; intros fdc; [reflexivity|].
  cbn [has_dependency_conflict]. rewrite Hc, Hmerged. cbn.
  rewrite Hcat. cbn. rewrite Hq, IH. reflexivity.
Qed.

(** C5 (as the code has it): on a catalog where [x]'s recipe requires [x],
    neither the check nor the resolver ever returns, at any recursion depth:
    no [CyclicDependency] failure is produced. *)
Lemma self_cycle_never_returns :
  (forall fuel, has_dependency_conflict fuel rec_xc [req "x" 0 None] catalog_cycle [] = None)
  /\ (forall fuel, build_dependency_tree fuel root_x [] catalog_cycle [] = None).
Proof.
  assert (Hd : forall fuel fdc,
             has_dependency_conflict fuel rec_xc [req "x" 0 None] catalog_cycle fdc = None).
  { apply (hdc_self_cycle_diverges rec_xc _ _ (req "x" 0 None) [] []);
      reflexivity. }
  split; [intros; apply Hd|].
  intros [|n]; [reflexivity|]. cbn. rewrite Hd. reflexivity.
Qed.

(** C5, amended: there is no cycle detection. When the first entry of a
    recipe's merged build_requires/requires list names a family whose catalog
    list starts with that recipe, and the recipe conflicts neither with that
    entry nor with the constraints, [has_dependency_conflict] on it never
    returns (unbounded recursion), and neither does [build_dependency_tree]
    once it checks that recipe as a candidate. *)
Theorem no_cycle_detection (rec : Recipe) (constraints : PackageList) (RECIPES : Catalog)
  (q : PackageRequest) (rest : PackageList) (others : list Recipe)
  (Hmerged : additive_merged (build_requires rec) (requires rec) = Ok (q :: rest))
  (Hcat : dict_get RECIPES (name q) = Some (rec :: others))
  (Hq : req_conflicts_with (pkg rec) q = false)
  (Hc : conflicts_with_package_list rec constraints = false) :
  (forall fuel fdc, has_dependency_conflict fuel rec constraints RECIPES fdc = None)
  /\ (forall fuel chain p recs nd fa fl,
        req_conflicts_with (pkg rec) p = false ->
        resolve_candidates (build_dependency_tree fuel) (has_dependency_conflict fuel) RECIPES
          chain p (rec :: recs) (nd, constraints, fa, fl) = None).
Proof.
  pose proof (hdc_self_cycle_diverges rec constraints RECIPES q rest others Hmerged Hcat Hq Hc)
    as Hd.
  split; [exact Hd|].
  intros fuel chain p recs nd fa fl Hp. simpl. rewrite Hp, Hd. reflexivity.
Qed.

Lemma no_cycle_detection_witness :
  additive_merged (build_requires rec_xc) (requires rec_xc) = Ok [req "x" 0 None]
  /\ dict_get catalog_cycle (name (req "x" 0 None)) = Some [rec_xc]
  /\ req_conflicts_with (pkg rec_xc) (req "x" 0 None) = false
  /\ conflicts_with_package_list rec_xc [req "x" 0 None] = false
  /\ ((forall fuel fdc,
         has_dependency_conflict fuel rec_xc [req "x" 0 None] catalog_cycle fdc = None)
      /\ (forall fuel chain p recs nd fa fl,
            req_conflicts_with (pkg rec_xc) p = false ->
            resolve_candidates (build_dependency_tree fuel) (has_dependency_conflict fuel)
              catalog_cycle chain p (rec_xc :: recs) (nd, [req "x" 0 None], fa, fl) = None)).
Proof.
  split; [reflexivity|split; [reflexivity|split; [reflexivity|split; [reflexivity|]]]].
  exact (no_cycle_detection rec_xc [req "x" 0 None] catalog_cycle (req "x" 0 None) [] []
           eq_refl eq_refl eq_refl eq_refl).
Defined.

(** ** [has_dependency_conflict] across several dependencies *)

(** C1: [rec_r] requires [a] and [b]; under the constraint [b_5] the only
    recipe of [b] is rejected, yet [rec_r] is accepted, because [a] has an
    accepted alternative: one [all_conflict] flag is shared by all the
    entries of [merged]. *)
Theorem has_dependency_conflict_accepts_with_rejected_dependency :
  has_dependency_conflict 3 rec_r [b_5] catalog_ab [] = Some (Ok (false, [CBool true]))
  /\ dict_get catalog_ab "b" = Some [rec_b]
  /\ has_dependency_conflict 2 rec_b [b_5] catalog_ab [] = Some (Ok (true, [CBool true]))
  /\ has_dependency_conflict 2 rec_a [b_5] catalog_ab [] = Some (Ok (false, [])).
Proof. repeat split; reflexivity. Qed.

(** * Further properties of the code *)

(** ** Conflict checks *)

Lemma req_conflicts_with_sym p r : req_conflicts_with p r = req_conflicts_with r p.
Proof. unfold req_conflicts_with, intersects. rewrite String.eqb_sym, intersection_comm. reflexivity. Qed.

Lemma existsb_ext_in {X} (f g : X -> bool) l :
  (forall x, In x l -> f x = g x) -> existsb f l = existsb g l.
Proof.
  induction l as [|x l IH]; simpl; intros H; [reflexivity|].
  rewrite (H x (or_introl eq_refl)), IH by (intros y Hy; apply H; right; exact Hy). reflexivity.
Qed.

Lemma existsb_swap {X Y} (f : X -> Y -> bool) l1 l2 :
  existsb (fun x => existsb (fun y => f x y) l2) l1
  = existsb (fun y => existsb (fun x => f x y) l1) l2.
Proof.
  apply Bool.eq_true_iff_eq. rewrite !existsb_exists. split.
  - intros [x [Hx Hy]]. apply existsb_exists in Hy as [y [Hy Hf]].
    exists y. split; [exact Hy|]. apply existsb_exists. exists x. auto.
  - intros [y [Hy Hx]]. apply existsb_exists in Hx as [x [Hx Hf]].
    exists x. split; [exact Hx|]. apply existsb_exists. exists y. auto.
Qed.

Lemma existsb_orb {X} (f g : X -> bool) l :
  existsb (fun x => f x || g x) l = existsb f l || existsb g l.
Proof.
  induction l as [|x l IH]; simpl; [reflexivity|]. rewrite IH.
  destruct (f x), (g x), (existsb f l), (existsb g l); reflexivity.
Qed.

Lemma existsb_or_const {X} (f : X -> bool) (k : bool) l :
  existsb (fun x => f x || k) l = existsb f l || (k && negb (Nat.eqb (length l) 0)).
Proof.
  induction l as [|x l IH]; simpl; [destruct k; reflexivity|]. rewrite IH.
  destruct (f x), k, (existsb f l), l; reflexivity.
Qed.

Lemma has_conflicts_with_by_entry (self rhs : PackageList) :
  has_conflicts_with self rhs = existsb (list_conflicts_with self) rhs.
Proof. unfold has_conflicts_with, list_conflicts_with. apply existsb_swap. Qed.

(** [has_conflicts_with] is symmetric: [A] has a conflicting pair with [B]
    exactly when [B] has one with [A]. *)
Theorem has_conflicts_with_sym (A B : PackageList) :
  has_conflicts_with A B = has_conflicts_with B A.
Proof.
  unfold has_conflicts_with. rewrite existsb_swap.
  apply existsb_ext_in. intros b _. apply existsb_ext_in. intros a _.
  apply req_conflicts_with_sym.
Qed.

(** The single-request checks are the list checks on a one-entry list:
    [PackageList.conflicts_with(r)] is [has_conflicts_with([r])] and
    [Recipe.conflicts_with_package(r)] is [conflicts_with_package_list([r])]. *)
Theorem single_request_checks (L : PackageList) (rec : Recipe) (r : PackageRequest) :
  list_conflicts_with L r = has_conflicts_with L [r]
  /\ conflicts_with_package rec r = conflicts_with_package_list rec [r].
Proof.
  assert (H1 : forall L, list_conflicts_with L r = has_conflicts_with L [r]).
  { intros L'. unfold list_conflicts_with, has_conflicts_with. apply existsb_ext_in.
    intros p _. simpl. rewrite orb_false_r. reflexivity. }
  split; [apply H1|].
  unfold conflicts_with_package, conflicts_with_package_list. simpl. rewrite <- !H1.
  destruct (String.eqb (name (pkg rec)) (name r) && negb (intersects (range (pkg rec)) (range r))),
    (list_conflicts_with (variant rec) r), (list_conflicts_with (requires rec) r),
    (list_conflicts_with (build_requires rec) r); reflexivity.
Qed.

(** [conflicts_with_package_list] re-checks the whole of [rhs] at every
    step of its loop; the result is that of [conflicts_with_package] on some
    entry of [rhs] (and [False] on an empty [rhs]). *)
Theorem conflicts_with_package_list_by_entry (rec : Recipe) (rhs : PackageList) :
  conflicts_with_package_list rec rhs = existsb (conflicts_with_package rec) rhs.
Proof.
  unfold conflicts_with_package_list.
  set (c := fun p => String.eqb (name (pkg rec)) (name p)
                     && negb (intersects (range (pkg rec)) (range p))).
  change (existsb (fun p => c p || has_conflicts_with (variant rec) rhs
                            || has_conflicts_with (requires rec) rhs
                            || has_conflicts_with (build_requires rec) rhs) rhs
          = existsb (conflicts_with_package rec) rhs).
  assert (Hc : forall p, conflicts_with_package rec p
                         = c p || list_conflicts_with (variant rec) p
                           || list_conflicts_with (requires rec) p
                           || list_conflicts_with (build_requires rec) p).
  { intros p. unfold conflicts_with_package. fold (c p).
    destruct (c p), (list_conflicts_with (variant rec) p), (list_conflicts_with (requires rec) p),
      (list_conflicts_with (build_requires rec) p); reflexivity. }
  clearbody c.
  rewrite (existsb_ext_in _ _ rhs (fun p _ => Hc p)).
  rewrite !existsb_or_const, !existsb_orb, !has_conflicts_with_by_entry.
  destruct rhs as [|p rhs]; [reflexivity|]. simpl.
  destruct (c p), (existsb c rhs), (list_conflicts_with (variant rec) p),
    (existsb (list_conflicts_with (variant rec)) rhs),
    (list_conflicts_with (requires rec) p), (existsb (list_conflicts_with (requires rec)) rhs),
    (list_conflicts_with (build_requires rec) p),
    (existsb (list_conflicts_with (build_requires rec)) rhs); reflexivity.
Qed.



Lemma intersection_in_range a b v :
  in_range v (match intersection a b with Some g => g | None => empty_range end)
  = in_range v a && in_range v b.
Proof.
  destruct a as [la [ha|]], b as [lb [hb|]];
    unfold intersection, range_nonempty, in_range; simpl; nat_bool_cases.
Qed.

Lemma intersection_some_in_range a b g :
  intersection a b = Some g -> forall v, in_range v g = in_range v a && in_range v b.
Proof. intros H v. rewrite <- intersection_in_range, H. reflexivity. Qed.

Lemma intersection_none_in_range a b :
  intersection a b = None -> forall v, in_range v a && in_range v b = false.
Proof. intros H v. rewrite <- intersection_in_range, H. reflexivity. Qed.

Lemma intersection_idem a b g : intersection a b = Some g -> intersection g b = Some g.
Proof.
  unfold intersection. intros H.
  destruct (range_nonempty (mkRange (Nat.max (lo a) (lo b)) (min_hi (hi a) (hi b)))) eqn:E;
    [|discriminate].
  injection H as <-. simpl.
  replace (mkRange (Nat.max (Nat.max (lo a) (lo b)) (lo b)) (min_hi (min_hi (hi a) (hi b)) (hi b)))
    with (mkRange (Nat.max (lo a) (lo b)) (min_hi (hi a) (hi b))).
  - rewrite E. reflexivity.
  - f_equal; [lia|]. destruct (hi a), (hi b); simpl; f_equal; lia.
Qed.

Lemma intersection_self r : range_nonempty r = true -> intersection r r = Some r.
Proof.
  unfold intersection. intros H.
  replace (mkRange (Nat.max (lo r) (lo r)) (min_hi (hi r) (hi r))) with r.
  - rewrite H. reflexivity.
  - destruct r as [l [h|]]; simpl; rewrite ?Nat.max_id, ?Nat.min_id; reflexivity.
Qed.

(** ** [PackageList.constrained] *)

Lemma constrained_cons p ps r :
  constrained (p :: ps) r
  = (if String.eqb (name r) (name p) then
       mkReq (name p) (match intersection (range p) (range r) with
                       | Some rg => rg | None => empty_range end)
     else p) :: constrained ps r.
Proof. reflexivity. Qed.

Lemma constrained_app A B r : constrained (A ++ B) r = constrained A r ++ constrained B r.
Proof. apply map_app. Qed.

(** [constrained] keeps every entry in place with its family; an entry of
    the family of [rhs] afterwards holds exactly the versions of both ranges
    (none when they are disjoint), the others are unchanged. *)
Theorem constrained_spec (A : PackageList) (r : PackageRequest) :
  Forall2 (fun p c => name c = name p /\
             if String.eqb (name r) (name p)
             then forall v, in_range v (range c) = in_range v (range p) && in_range v (range r)
             else c = p) A (constrained A r).
Proof.
  induction A as [|p A IH]; [constructor|]. rewrite constrained_cons.
  constructor; [|exact IH].
  destruct (String.eqb (name r) (name p)); simpl; [|auto].
  split; [reflexivity|]. apply intersection_in_range.
Qed.

(** ** [PackageList.add_constraint] *)


Lemma add_constraint_loop_eq r ps acc found :
  add_constraint_loop r ps acc found
  = if existsb (disjoint_entry r) ps then Err VersionConflict
    else Ok (acc ++ constrained ps r, found || existsb (same_family r) ps).
Proof.
  revert acc found. induction ps as [|p ps IH]; intros acc found; cbn [add_constraint_loop existsb].
  - change (constrained [] r) with (@nil PackageRequest).
    rewrite app_nil_r, orb_false_r. reflexivity.
  - unfold disjoint_entry at 1, same_family at 1. rewrite constrained_cons.
    destruct (String.eqb (name r) (name p)) eqn:E; simpl.
    + unfold req_merged, intersects. rewrite String.eqb_sym, E.
      destruct (intersection (range p) (range r)) as [rg|]; simpl; [|reflexivity].
      rewrite IH. destruct (existsb (disjoint_entry r) ps); [reflexivity|].
      rewrite <- app_assoc, orb_true_r. reflexivity.
    + rewrite IH. destruct (existsb (disjoint_entry r) ps); [reflexivity|].
      rewrite <- app_assoc. reflexivity.
Qed.

Lemma constrained_absent A r : existsb (same_family r) A = false -> constrained A r = A.
Proof.
  induction A as [|p A IH]; cbn [existsb]; intros H; [reflexivity|].
  apply orb_false_iff in H as [Hp HA]. rewrite constrained_cons.
  unfold same_family in Hp. rewrite Hp, IH by exact HA. reflexivity.
Qed.

(** [add_constraint] raises [VersionConflict] exactly when an entry of the
    family of [rhs] has a range disjoint from it; otherwise it narrows the
    entries of that family in place, as [constrained] does, or appends
    [rhs] at the end when there is none. *)
Theorem add_constraint_spec (A : PackageList) (r : PackageRequest) :
  add_constraint A r
  = if existsb (disjoint_entry r) A then Err VersionConflict
    else if existsb (same_family r) A then Ok (constrained A r)
    else Ok (A ++ [r]).
Proof.
  unfold add_constraint. rewrite add_constraint_loop_eq.
  destruct (existsb (disjoint_entry r) A); [reflexivity|]. simpl.
  destruct (existsb (same_family r) A) eqn:Es; [reflexivity|].
  unfold PackageList_init. rewrite constrained_absent by exact Es. reflexivity.
Qed.

Lemma constrained_again A r :
  existsb (disjoint_entry r) A = false ->
  existsb (disjoint_entry r) (constrained A r) = false
  /\ existsb (same_family r) (constrained A r) = existsb (same_family r) A
  /\ constrained (constrained A r) r = constrained A r.
Proof.
  induction A as [|p A IH]; cbn [existsb]; intros H; [auto|].
  apply orb_false_iff in H as [Hp HA]. destruct (IH HA) as [H1 [H2 H3]].
  rewrite !constrained_cons. unfold disjoint_entry, same_family in *.
  destruct (String.eqb (name r) (name p)) eqn:E.
  - unfold intersects in *. destruct (intersection (range p) (range r)) as [g|] eqn:Eg;
      [|discriminate].
    cbn [existsb name range]. rewrite E, (intersection_idem _ _ _ Eg), H3.
    unfold intersects in H1. rewrite H1, H2. auto.
  - cbn [existsb]. rewrite E, H3. rewrite Hp in *. auto.
Qed.

(** Adding the same constraint twice is adding it once: after a successful
    [add_constraint(rhs)] a second one leaves the list unchanged. It needs
    [rhs] to hold some version: an appended [rhs] with an empty range
    conflicts with itself on the second call. *)
Theorem add_constraint_idempotent (A : PackageList) (r : PackageRequest) (R : PackageList)
  (Hr : range_nonempty (range r) = true) (H : add_constraint A r = Ok R) :
  add_constraint R r = Ok R.
Proof.
  rewrite add_constraint_spec in H |- *.
  destruct (existsb (disjoint_entry r) A) eqn:Ed; [discriminate|].
  destruct (existsb (same_family r) A) eqn:Es; injection H as <-.
  - destruct (constrained_again A r Ed) as [H1 [H2 H3]].
    rewrite H1, H2, Es, H3. reflexivity.
  - rewrite !existsb_app, Ed, Es, constrained_app, (constrained_absent A r Es).
    rewrite constrained_cons. unfold disjoint_entry, same_family, intersects. cbn [existsb].
    rewrite String.eqb_refl, (intersection_self _ Hr). simpl. destruct r; reflexivity.
Qed.

Lemma add_constraint_idempotent_witness :
  range_nonempty (range (req "x" 1 (Some 4))) = true
  /\ add_constraint [req "x" 0 (Some 3); req "y" 0 None] (req "x" 1 (Some 4))
     = Ok [req "x" 1 (Some 3); req "y" 0 None]
  /\ add_constraint [req "x" 1 (Some 3); req "y" 0 None] (req "x" 1 (Some 4))
     = Ok [req "x" 1 (Some 3); req "y" 0 None].
Proof.
  split; [reflexivity|]. split; [reflexivity|].
  apply (add_constraint_idempotent [req "x" 0 (Some 3); req "y" 0 None]); reflexivity.
Defined.


(** ** [PackageList.merged] *)


Lemma merged_loop_spec d ps acc :
  match merged_loop d ps acc with
  | Ok R => exists R', R = acc ++ R' /\
      Forall2 (fun p r => exists q, dict_get d (name p) = Some q /\ req_merged p q = Some r)
              (filter (fun p => in_dict d (name p)) ps) R'
  | Err e => e = VersionConflict /\
      exists p q, In p ps /\ dict_get d (name p) = Some q /\ req_merged p q = None
  end.
Proof.
  revert acc. induction ps as [|p ps IH]; intros acc; simpl.
  - exists []. rewrite app_nil_r. auto.
  - unfold in_dict at 1. destruct (dict_get d (name p)) as [q|] eqn:Hq.
    + destruct (req_merged p q) as [m|] eqn:Hm.
      * rewrite req_eta. specialize (IH (acc ++ [m])).
        destruct (merged_loop d ps (acc ++ [m])).
        -- destruct IH as [R' [-> HF]]. exists (m :: R').
           rewrite <- app_assoc. split; [reflexivity|]. constructor; [eauto|exact HF].
        -- destruct IH as [-> [p0 [q0 [Hin [Hg Hm0]]]]]. split; [reflexivity|].
           exists p0, q0. auto.
      * split; [reflexivity|]. exists p, q. auto.
    + specialize (IH acc). destruct (merged_loop d ps acc).
      * exact IH.
      * destruct IH as [-> [p0 [q0 [Hin [Hg Hm0]]]]]. split; [reflexivity|].
        exists p0, q0. auto.
Qed.

(** [A.merged(B)] ([A] a constraint set: unique names) keeps the entries of
    [B] whose family is in [A], in the order of [B], each with the
    intersection of its range and that of [A]'s entry; the entries of [A]
    alone and of [B] alone are dropped. It raises [VersionConflict] exactly
    when a shared family has disjoint ranges. *)
Theorem merged_spec (A B : PackageList) (HA : NoDup (names A)) :
  match merged A B with
  | Ok R => ~ shared_empty B A /\
      Forall2 (fun b r => exists a, find_req A (name b) = Some a /\ name r = name b
                                    /\ intersection (range b) (range a) = Some (range r))
              (filter (fun b => match find_req A (name b) with Some _ => true | None => false end) B)
              R
  | Err e => e = VersionConflict /\ shared_empty B A
  end.
Proof.
  unfold merged. pose proof (merged_loop_spec (dict_of A) B []) as H.
  assert (Hf : filter (fun p => in_dict (dict_of A) (name p)) B
               = filter (fun b => match find_req A (name b) with Some _ => true | None => false end) B).
  { apply filter_ext_in. intros b _. unfold in_dict. rewrite dict_of_get by exact HA. reflexivity. }
  destruct (merged_loop (dict_of A) B []) as [R|e]; simpl.
  - destruct H as [R' [-> HF]]. rewrite Hf in HF. simpl. unfold PackageList_init.
    assert (HF' : Forall2 (fun b r => exists a, find_req A (name b) = Some a /\ name r = name b
                                    /\ intersection (range b) (range a) = Some (range r))
              (filter (fun b => match find_req A (name b) with Some _ => true | None => false end) B)
              R').
    { eapply Forall2_impl; [|exact HF]. intros b r [q [Hq Hm]].
      rewrite dict_of_get in Hq by exact HA. exists q.
      apply req_merged_some in Hm as [Hn1 [Hn2 Hi]]. auto. }
    split; [|exact HF'].
    intros [b [a [Hb [Ha [Hn Hi]]]]].
    assert (Hfa : find_req A (name b) = Some a) by (rewrite Hn; apply find_req_in; assumption).
    assert (Hbin : In b (filter (fun b => match find_req A (name b) with
                                          | Some _ => true | None => false end) B)).
    { apply filter_In. rewrite Hfa. auto. }
    destruct (Forall2_in_l _ _ _ _ HF Hbin) as [r [_ [q [Hq Hm]]]].
    rewrite dict_of_get, Hfa in Hq by exact HA. injection Hq as <-.
    rewrite (req_merged_same b a Hn Hi) in Hm. discriminate.
  - destruct H as [-> [p [q [Hin [Hg Hm]]]]]. split; [reflexivity|].
    apply dict_of_get_some in Hg as [Hq Hn].
    exists p, q. repeat split; auto.
    apply req_merged_none; auto.
Qed.

Lemma merged_spec_witness :
  NoDup (names [req "x" 0 (Some 5); req "y" 0 None])
  /\ merged [req "x" 0 (Some 5); req "y" 0 None] [req "z" 0 None; req "x" 2 None]
     = Ok [req "x" 2 (Some 5)]
  /\ match merged [req "x" 0 (Some 5); req "y" 0 None] [req "z" 0 None; req "x" 2 None] with
     | Ok R => ~ shared_empty [req "z" 0 None; req "x" 2 None] [req "x" 0 (Some 5); req "y" 0 None] /\
         Forall2 (fun b r => exists a, find_req [req "x" 0 (Some 5); req "y" 0 None] (name b) = Some a
                                       /\ name r = name b
                                       /\ intersection (range b) (range a) = Some (range r))
                 (filter (fun b => match find_req [req "x" 0 (Some 5); req "y" 0 None] (name b) with
                                   | Some _ => true | None => false end)
                         [req "z" 0 None; req "x" 2 None]) R
     | Err e => e = VersionConflict
                /\ shared_empty [req "z" 0 None; req "x" 2 None] [req "x" 0 (Some 5); req "y" 0 None]
     end.
Proof.
  assert (HA : NoDup (names [req "x" 0 (Some 5); req "y" 0 None])).
  { simpl. constructor; [simpl; intros [H|[]]; discriminate|constructor; [intros []|constructor]]. }
  split; [exact HA|]. split; [reflexivity|].
  exact (merged_spec _ [req "z" 0 None; req "x" 2 None] HA).
Defined.


(** ** The failure chain of [has_dependency_conflict] *)

Lemma chain_from_app f1 f2 m : chain_from f1 (chain_from f2 m) = chain_from (f1 ++ f2) m.
Proof.
  destruct m as [[[b s]|e]|]; try reflexivity.
  unfold chain_from. simpl. rewrite app_assoc. reflexivity.
Qed.


Lemma hdc_alternatives_chain check cs RECIPES p recs :
  (forall rec cs' fdc, check rec cs' RECIPES fdc = chain_from fdc (check rec cs' RECIPES [])) ->
  forall ac fdc, hdc_alternatives check cs RECIPES p recs (ac, fdc)
                 = chain_from fdc (hdc_alternatives check cs RECIPES p recs (ac, [])).
Proof.
  intros Hc. induction recs as [|rec recs IH]; intros ac fdc; simpl.
  - unfold chain_from. simpl. rewrite app_nil_r. reflexivity.
  - destruct (req_conflicts_with (pkg rec) p); [apply IH|].
    rewrite (Hc rec cs fdc).
    destruct (check rec cs RECIPES []) as [[[c s]|e]|]; simpl; try reflexivity.
    rewrite IH, (IH _ s), chain_from_app. reflexivity.
Qed.

Lemma hdc_entries_chain check cs RECIPES ps :
  (forall rec cs' fdc, check rec cs' RECIPES fdc = chain_from fdc (check rec cs' RECIPES [])) ->
  forall ac fdc, hdc_entries check cs RECIPES ps (ac, fdc)
                 = chain_from fdc (hdc_entries check cs RECIPES ps (ac, [])).
Proof.
  intros Hc. induction ps as [|p ps IH]; intros ac fdc; simpl.
  - unfold chain_from. simpl. rewrite app_nil_r. reflexivity.
  - destruct (dict_get RECIPES (name p)) as [recs|]; [|apply IH].
    rewrite (hdc_alternatives_chain check cs RECIPES p recs Hc ac fdc).
    destruct (hdc_alternatives check cs RECIPES p recs (ac, [])) as [[[c s]|e]|]; simpl;
      try reflexivity.
    rewrite IH, (IH _ s), chain_from_app. reflexivity.
Qed.

Lemma hdc_alternatives_chain_true check cs RECIPES p recs :
  (forall rec cs' fdc, Forall (eq (CBool true)) fdc -> chain_true (check rec cs' RECIPES fdc)) ->
  forall st, Forall (eq (CBool true)) (snd st) ->
  chain_true (hdc_alternatives check cs RECIPES p recs st).
Proof.
  intros Hc. induction recs as [|rec recs IH]; intros [ac fdc] Hf; simpl; [exact Hf|].
  destruct (req_conflicts_with (pkg rec) p); [apply IH; exact Hf|].
  specialize (Hc rec cs fdc Hf).
  destruct (check rec cs RECIPES fdc) as [[[c s]|e]|]; simpl; try exact I.
  apply IH. exact Hc.
Qed.

Lemma hdc_entries_chain_true check cs RECIPES ps :
  (forall rec cs' fdc, Forall (eq (CBool true)) fdc -> chain_true (check rec cs' RECIPES fdc)) ->
  forall st, Forall (eq (CBool true)) (snd st) ->
  chain_true (hdc_entries check cs RECIPES ps st).
Proof.
  intros Hc. induction ps as [|p ps IH]; intros [ac fdc] Hf; simpl; [exact Hf|].
  destruct (dict_get RECIPES (name p)) as [recs|]; [|apply IH; exact Hf].
  pose proof (hdc_alternatives_chain_true check cs RECIPES p recs Hc (ac, fdc) Hf) as H.
  destruct (hdc_alternatives check cs RECIPES p recs (ac, fdc)) as [[[c s]|e]|]; simpl;
    try exact I.
  apply IH. exact H.
Qed.

Lemma has_dependency_conflict_chain_from fuel recipe cs RECIPES fdc :
  has_dependency_conflict fuel recipe cs RECIPES fdc
  = chain_from fdc (has_dependency_conflict fuel recipe cs RECIPES []).
Proof.
  revert recipe cs fdc. induction fuel as [|n IH]; intros recipe cs fdc; [reflexivity|].
  simpl. destruct (conflicts_with_package_list recipe cs); [reflexivity|].
  destruct (additive_merged (build_requires recipe) (requires recipe)) as [merged|e];
    simpl; [|reflexivity].
  destruct (negb (Nat.eqb (length merged) 0)).
  - apply hdc_entries_chain. intros. apply IH.
  - unfold chain_from. simpl. rewrite app_nil_r. reflexivity.
Qed.

Lemma has_dependency_conflict_chain_true fuel recipe cs RECIPES fdc :
  Forall (eq (CBool true)) fdc ->
  chain_true (has_dependency_conflict fuel recipe cs RECIPES fdc).
Proof.
  revert recipe cs fdc. induction fuel as [|n IH]; intros recipe cs fdc Hf; [exact I|].
  simpl. destruct (conflicts_with_package_list recipe cs).
  - simpl. apply Forall_app. split; [exact Hf|constructor; [reflexivity|constructor]].
  - destruct (additive_merged (build_requires recipe) (requires recipe)) as [merged|e];
      simpl; [|exact I].
    destruct (negb (Nat.eqb (length merged) 0)); [|exact Hf].
    apply hdc_entries_chain_true; [|exact Hf]. intros. apply IH. assumption.
Qed.

(** The verdict of [has_dependency_conflict] does not depend on the chain
    [failed_dependency_chain] it is given: the function only appends to it,
    and what it appends is a run of the entry [True]. The chain never
    records which recipe or which requirement failed. *)
Theorem has_dependency_conflict_chain (fuel : nat) (recipe : Recipe) (constraints : PackageList)
  (RECIPES : Catalog) (fdc : Chain) :
  has_dependency_conflict fuel recipe constraints RECIPES fdc
  = chain_from fdc (has_dependency_conflict fuel recipe constraints RECIPES [])
  /\ match has_dependency_conflict fuel recipe constraints RECIPES [] with
     | Some (Ok (_, s)) => Forall (eq (CBool true)) s
     | _ => True
     end.
Proof.
  split; [apply has_dependency_conflict_chain_from|].
  exact (has_dependency_conflict_chain_true fuel recipe constraints RECIPES [] (Forall_nil _)).
Qed.

(** ** [find_recipe] *)

Lemma find_recipe_loop_spec check fo p rv RECIPES recipes found :
  match find_recipe_loop check fo p rv RECIPES recipes found with
  | Some (Ok res) =>
      res = found ++ filter (fun r => negb (req_conflicts_with p (pkg r))
                                      && hdc_accepts (check r rv RECIPES (fo r))) recipes
  | _ => True
  end.
Proof.
  revert found. induction recipes as [|r recipes IH]; intros found; simpl.
  - rewrite app_nil_r. reflexivity.
  - destruct (req_conflicts_with p (pkg r)); simpl; [apply IH|].
    destruct (check r rv RECIPES (fo r)) as [[[c s]|e]|]; simpl; try exact I.
    destruct c; simpl.
    + apply IH.
    + specialize (IH (found ++ [r])).
      destruct (find_recipe_loop check fo p rv RECIPES recipes (found ++ [r])) as [[res|e]|];
        try exact I.
      rewrite IH, <- app_assoc. reflexivity.
Qed.

Lemma find_recipe_loop_only_VC check fo p rv RECIPES recipes found :
  (forall rec cs fdc, only_VC (check rec cs RECIPES fdc)) ->
  only_VC (find_recipe_loop check fo p rv RECIPES recipes found).
Proof.
  intros Hc. revert found. induction recipes as [|r recipes IH]; intros found; simpl; [exact I|].
  destruct (req_conflicts_with p (pkg r)); [apply IH|].
  specialize (Hc r rv (fo r)).
  destruct (check r rv RECIPES (fo r)) as [[[c s]|e]|]; simpl in *; try exact I; [|exact Hc].
  destruct c; apply IH.
Qed.



(** When it returns, [find_recipe] keeps, in catalog order, exactly the
    recipes of the requested family whose package does not conflict with the
    request and which [has_dependency_conflict] accepts against the requested
    variant. *)
Theorem find_recipe_filters (fuel : nat) (failchain_of : Recipe -> Chain)
  (pkg_req : PackageRequest) (requested_variant : PackageList) (RECIPES : Catalog)
  (installed : bool) (recipes found : list Recipe)
  (Hcat : dict_get RECIPES (name pkg_req) = Some recipes)
  (Hok : find_recipe fuel failchain_of pkg_req requested_variant RECIPES installed = Some (Ok found)) :
  found = filter (fun r => negb (req_conflicts_with pkg_req (pkg r))
                           && hdc_accepts (has_dependency_conflict fuel r requested_variant
                                                                   RECIPES (failchain_of r)))
                 recipes.
Proof.
  unfold find_recipe in Hok. destruct RECIPES as [|kv R']; [discriminate|].
  rewrite Hcat in Hok.
  pose proof (find_recipe_loop_spec (has_dependency_conflict fuel) failchain_of pkg_req
                requested_variant (kv :: R') recipes []) as H.
  rewrite Hok in H. exact H.
Qed.

Lemma find_recipe_filters_witness :
  dict_get catalog_xy (name (req "x" 0 None)) = Some [rec_xy]
  /\ find_recipe 2 (fun _ => []) (req "x" 0 None) [y_2] catalog_xy false = Some (Ok [])
  /\ [] = filter (fun r => negb (req_conflicts_with (req "x" 0 None) (pkg r))
                           && hdc_accepts (has_dependency_conflict 2 r [y_2] catalog_xy []))
                 [rec_xy].
Proof.
  split; [reflexivity|]. split; [reflexivity|].
  exact (find_recipe_filters 2 (fun _ => []) (req "x" 0 None) [y_2] catalog_xy false [rec_xy] []
           eq_refl eq_refl).
Defined.

(** [find_recipe] raises nothing but [VersionConflict]; in particular never
    the declared [RecipeNotFound]. *)
Theorem find_recipe_only_VersionConflict (fuel : nat) (failchain_of : Recipe -> Chain)
  (pkg_req : PackageRequest) (requested_variant : PackageList) (RECIPES : Catalog)
  (installed : bool) :
  only_VC (find_recipe fuel failchain_of pkg_req requested_variant RECIPES installed).
Proof.
  unfold find_recipe. destruct RECIPES as [|kv R']; [exact I|].
  destruct (dict_get (kv :: R') (name pkg_req)); [|exact I].
  apply find_recipe_loop_only_VC. intros. apply has_dependency_conflict_only_VC.
Qed.


(** ** Constraints only tighten *)

Lemma narrower_refl r : narrower r r.
Proof. intros v H. exact H. Qed.

Lemma narrower_trans a b c : narrower a b -> narrower b c -> narrower a c.
Proof. intros H1 H2 v H. apply H2, H1, H. Qed.

Lemma entries_refl cs :
  Forall2 (fun c c' => name c' = name c /\ narrower (range c') (range c)) cs cs.
Proof.
  induction cs as [|c cs IH]; constructor; [|exact IH]. split; [reflexivity|apply narrower_refl].
Qed.

Lemma tightens_refl cs : tightens cs cs.
Proof. exists cs, []. rewrite app_nil_r. split; [reflexivity|apply entries_refl]. Qed.

Lemma tightens_trans a b c : tightens a b -> tightens b c -> tightens a c.
Proof.
  intros [pre1 [post1 [-> H1]]] [pre2 [post2 [-> H2]]].
  apply Forall2_app_inv_l in H2 as [pa [pb [Ha [Hb ->]]]].
  exists pa, (pb ++ post2). rewrite app_assoc. split; [reflexivity|].
  revert pa Ha. induction H1 as [|x y l1 l2 [Hn1 Hr1] _ IH]; intros pa Ha.
  - inversion Ha. constructor.
  - inversion Ha as [|? z ? l3 [Hn2 Hr2] Hrest]; subst. constructor.
    + split; [congruence|]. eapply narrower_trans; eassumption.
    + apply IH. exact Hrest.
Qed.

Lemma add_constraint_tightens A r R : add_constraint A r = Ok R -> tightens A R.
Proof.
  rewrite add_constraint_spec.
  destruct (existsb (disjoint_entry r) A); [discriminate|].
  destruct (existsb (same_family r) A); intros H; injection H as <-.
  - exists (constrained A r), []. rewrite app_nil_r. split; [reflexivity|].
    eapply Forall2_impl; [|apply constrained_spec]. intros p c [Hn Hc]. split; [exact Hn|].
    destruct (String.eqb (name r) (name p)).
    + intros v Hv. rewrite Hc in Hv. apply andb_true_iff in Hv. tauto.
    + subst c. apply narrower_refl.
  - exists A, [r]. split; [reflexivity|apply entries_refl].
Qed.

Lemma add_constraints_tightens cs ps cs' : add_constraints cs ps = Ok cs' -> tightens cs cs'.
Proof.
  revert cs. induction ps as [|p ps IH]; simpl; intros cs H.
  - injection H as <-. apply tightens_refl.
  - destruct (add_constraint cs p) as [cs1|e] eqn:E; simpl in H; [|discriminate].
    apply tightens_trans with cs1; [apply (add_constraint_tightens _ _ _ E)|apply IH; exact H].
Qed.

Lemma resolve_candidates_tightens recurse check RECIPES chain p :
  (forall rec cs ch nd cs', recurse rec cs RECIPES ch = Some (Ok (nd, cs')) -> tightens cs cs') ->
  forall recs nd cs fa fl nd' cs' fa' fl',
  resolve_candidates recurse check RECIPES chain p recs (nd, cs, fa, fl)
    = Some (Ok (nd', cs', fa', fl')) -> tightens cs cs'.
Proof.
  intros Hr. induction recs as [|rec recs IH]; simpl; intros nd cs fa fl nd' cs' fa' fl' H.
  - injection H as _ <- _ _. apply tightens_refl.
  - destruct (req_conflicts_with (pkg rec) p); [eapply IH; exact H|].
    destruct (check rec cs RECIPES chain) as [[[c fc]|e]|]; simpl in H; try discriminate.
    destruct c; [eapply IH; exact H|].
    destruct (recurse rec cs RECIPES (chain ++ [CPkg (pkg rec)])) as [[[dr cs1]|e]|] eqn:E;
      simpl in H; try discriminate.
    apply tightens_trans with cs1; [eapply Hr; exact E|eapply IH; exact H].
Qed.

Lemma resolve_entries_tightens recurse check RECIPES chain :
  (forall rec cs ch nd cs', recurse rec cs RECIPES ch = Some (Ok (nd, cs')) -> tightens cs cs') ->
  forall ps nd cs nd' cs',
  resolve_entries recurse check RECIPES chain ps (nd, cs) = Some (Ok (nd', cs')) -> tightens cs cs'.
Proof.
  intros Hr. induction ps as [|p ps IH]; simpl; intros nd cs nd' cs' H.
  - injection H as _ <-. apply tightens_refl.
  - destruct (dict_get RECIPES (name p)) as [recs|]; [|discriminate].
    destruct (resolve_candidates recurse check RECIPES chain p recs (nd, cs, false, []))
      as [[[[[nd1 cs1] fa] fl]|e]|] eqn:E; simpl in H; try discriminate.
    destruct fa; simpl in H; [|discriminate].
    apply tightens_trans with cs1;
      [eapply (resolve_candidates_tightens _ _ _ _ _ Hr); exact E|eapply IH; exact H].
Qed.

Lemma build_dependency_tree_tightens_gen fuel recipe cs RECIPES chain nd cs' :
  build_dependency_tree fuel recipe cs RECIPES chain = Some (Ok (nd, cs')) -> tightens cs cs'.
Proof.
  revert recipe cs chain nd cs'. induction fuel as [|n IH]; intros recipe cs chain nd cs' H;
    [discriminate|].
  simpl in H. destruct (merged_requires_of recipe) as [mr|e]; simpl in H; [|discriminate].
  destruct (add_constraints cs mr) as [cs1|e] eqn:E; simpl in H; [|discriminate].
  apply tightens_trans with cs1; [apply (add_constraints_tightens _ _ _ E)|].
  eapply resolve_entries_tightens; [|exact H]. intros. eapply IH. eassumption.
Qed.

(** [build_dependency_tree] only tightens the constraints it is given: when
    it returns, every entry of the caller's [constraints] is still in place
    with its family and a range holding no version it did not hold, and new
    families only come after them. *)
Theorem build_dependency_tree_tightens (fuel : nat) (recipe : Recipe) (constraints : PackageList)
  (RECIPES : Catalog) (chain : Chain) (new_deps : Deps) (constraints' : PackageList)
  (H : build_dependency_tree fuel recipe constraints RECIPES chain
       = Some (Ok (new_deps, constraints'))) :
  tightens constraints constraints'.
Proof. exact (build_dependency_tree_tightens_gen _ _ _ _ _ _ _ H). Qed.

Lemma build_dependency_tree_tightens_witness :
  build_dependency_tree 2 root_x [req "x" 0 (Some 5)] catalog_x12 []
    = Some (Ok ([("x", [rec_x1; rec_x2])], [req "x" 0 (Some 5)]))
  /\ tightens [req "x" 0 (Some 5)] [req "x" 0 (Some 5)].
Proof.
  split; [reflexivity|].
  exact (build_dependency_tree_tightens 2 root_x [req "x" 0 (Some 5)] catalog_x12 []
           [("x", [rec_x1; rec_x2])] [req "x" 0 (Some 5)] eq_refl).
Defined.

(** ** [get_constraints_from_package_recipes] *)

Lemma find_recipe_no_conflict fuel fo p cs RECIPES inst found :
  find_recipe fuel fo p cs RECIPES inst = Some (Ok found) ->
  forall r, In r found -> conflicts_with_package_list r cs = false.
Proof.
  intros H r Hr. unfold find_recipe in H. destruct RECIPES as [|kv R'].
  - injection H as <-. contradiction.
  - destruct (dict_get (kv :: R') (name p)) as [recipes|]; [|injection H as <-; contradiction].
    pose proof (find_recipe_loop_spec (has_dependency_conflict fuel) fo p cs (kv :: R') recipes [])
      as Hs.
    rewrite H in Hs. simpl in Hs. subst found. apply filter_In in Hr as [_ Hr].
    apply andb_true_iff in Hr as [_ Ha].
    destruct fuel as [|n]; [discriminate|]. simpl in Ha.
    destruct (conflicts_with_package_list r cs); [discriminate|reflexivity].
Qed.

(** [get_constraints_from_package_recipes] uses the first recipe
    [find_recipe] returns: its own conflict check never rejects one, since
    [find_recipe] has already dropped the recipes that conflict with the
    initial constraints. *)
Theorem get_constraints_first_available (fuel : nat) (failchain_of : Recipe -> Chain)
  (pkg_req : PackageRequest) (initial_constraints : PackageList) (RECIPES : Catalog)
  (rec : Recipe) (recs : list Recipe)
  (H : find_recipe fuel failchain_of pkg_req initial_constraints RECIPES false
       = Some (Ok (rec :: recs))) :
  get_constraints_from_package_recipes fuel failchain_of pkg_req initial_constraints RECIPES
  = match build_dependency_tree fuel rec initial_constraints RECIPES [] with
    | None => None
    | Some (Err e) => Some (GcRaise e)
    | Some (Ok (_, constraints')) => Some (GcOk constraints')
    end.
Proof.
  unfold get_constraints_from_package_recipes. rewrite H. simpl.
  rewrite (find_recipe_no_conflict _ _ _ _ _ _ _ H rec (or_introl eq_refl)). reflexivity.
Qed.

Lemma get_constraints_first_available_witness :
  find_recipe 2 (fun _ => []) (req "x" 0 None) [req "x" 0 (Some 5)] catalog_x12 false
    = Some (Ok [rec_x1; rec_x2])
  /\ get_constraints_from_package_recipes 2 (fun _ => []) (req "x" 0 None) [req "x" 0 (Some 5)]
       catalog_x12
     = match build_dependency_tree 2 rec_x1 [req "x" 0 (Some 5)] catalog_x12 [] with
       | None => None
       | Some (Err e) => Some (GcRaise e)
       | Some (Ok (_, constraints')) => Some (GcOk constraints')
       end.
Proof.
  split; [reflexivity|].
  exact (get_constraints_first_available 2 (fun _ => []) (req "x" 0 None) [req "x" 0 (Some 5)]
           catalog_x12 rec_x1 [rec_x2] eq_refl).
Defined.

(** What [get_constraints_from_package_recipes] can end with: constraints
    that tighten the initial ones; a [VersionConflict] or a [RuntimeError]
    of its callees; or its own [RuntimeError("Could not find any recipes
    ...")]. Its last statement, [RuntimeError("Could not solve constraints
    ...")], is never reached. *)
Theorem get_constraints_outcomes (fuel : nat) (failchain_of : Recipe -> Chain)
  (pkg_req : PackageRequest) (initial_constraints : PackageList) (RECIPES : Catalog) :
  match get_constraints_from_package_recipes fuel failchain_of pkg_req initial_constraints RECIPES with
  | Some (GcOk cs') => tightens initial_constraints cs'
  | Some (GcRaise e) => e = VersionConflict \/ exists m, e = RuntimeError m
  | Some (GcRuntimeError m) => m = CouldNotFindAnyRecipes pkg_req
  | None => True
  end.
Proof.
  unfold get_constraints_from_package_recipes.
  pose proof (find_recipe_only_VersionConflict fuel failchain_of pkg_req initial_constraints
                RECIPES false) as Hvc.
  destruct (find_recipe fuel failchain_of pkg_req initial_constraints RECIPES false)
    as [[found|e]|] eqn:Ef; [| left; exact Hvc | exact I].
  destruct found as [|rec recs]; [reflexivity|]. simpl.
  rewrite (find_recipe_no_conflict _ _ _ _ _ _ _ Ef rec (or_introl eq_refl)).
  pose proof (build_dependency_tree_raises fuel rec initial_constraints RECIPES []) as Hr.
  destruct (build_dependency_tree fuel rec initial_constraints RECIPES []) as [[[nd cs']|e]|] eqn:Eb;
    [|exact Hr|exact I].
  eapply build_dependency_tree_tightens_gen. exact Eb.
Qed.


(** ** The dependency dict *)


Lemma deps_wf_nil RECIPES : deps_wf RECIPES [].
Proof. split; constructor. Qed.

Lemma dict_get_in {V} (d : Dict V) k v : dict_get d k = Some v -> In (k, v) d.
Proof.
  induction d as [|[k' v'] d IH]; simpl; [discriminate|].
  destruct (String.eqb k k') eqn:E; intros H.
  - apply String.eqb_eq in E. injection H as <-. subst. left; reflexivity.
  - right. apply IH, H.
Qed.

Lemma deps_wf_get RECIPES nd k l : deps_wf RECIPES nd -> dict_get nd k = Some l -> entry_ok RECIPES k l.
Proof.
  intros [_ Hf] Hg. apply dict_get_in in Hg.
  rewrite Forall_forall in Hf. exact (Hf _ Hg).
Qed.

Lemma deps_wf_set RECIPES nd k v :
  deps_wf RECIPES nd -> entry_ok RECIPES k v -> deps_wf RECIPES (dict_set nd k v).
Proof.
  intros [Hk Hf] Hv. split; [apply dict_keys_set_NoDup; exact Hk|].
  clear Hk. induction nd as [|[k' v'] nd IH]; simpl; [constructor; [exact Hv|constructor]|].
  inversion Hf as [|? ? Hh Ht]; subst.
  destruct (String.eqb k k'); constructor; auto.
Qed.

Lemma mem_recipe_false r l : mem_recipe r l = false -> ~ In (rid r) (map rid l).
Proof.
  unfold mem_recipe. intros H Hin. apply in_map_iff in Hin as [r' [Hr Hin]].
  assert (Ht : existsb (fun r' => Nat.eqb (rid r') (rid r)) l = true).
  { apply existsb_exists. exists r'. split; [exact Hin|]. apply Nat.eqb_eq. exact Hr. }
  congruence.
Qed.

Lemma entry_ok_snoc RECIPES k l r :
  entry_ok RECIPES k l -> mem_recipe r l = false -> name (pkg r) = k -> in_catalog RECIPES r ->
  entry_ok RECIPES k (l ++ [r]).
Proof.
  intros [Hnd Hf] Hm Hn Hc. split.
  - rewrite map_app. apply NoDup_snoc; [exact Hnd|]. apply mem_recipe_false. exact Hm.
  - apply Forall_app. split; [exact Hf|]. constructor; [auto|constructor].
Qed.

Lemma append_missing_ok RECIPES k ex drs :
  entry_ok RECIPES k ex -> Forall (fun r => name (pkg r) = k /\ in_catalog RECIPES r) drs ->
  entry_ok RECIPES k (append_missing ex drs).
Proof.
  unfold append_missing. revert ex. induction drs as [|dr drs IH]; simpl; intros ex Hex Hd;
    [exact Hex|].
  inversion Hd as [|? ? [Hn Hc] Ht]; subst. apply IH; [|exact Ht].
  destruct (mem_recipe dr ex) eqn:Em; [exact Hex|]. apply entry_ok_snoc; auto.
Qed.

Lemma merge_deps_ok RECIPES nd dr :
  deps_wf RECIPES nd -> Forall (fun kv => entry_ok RECIPES (fst kv) (snd kv)) dr ->
  deps_wf RECIPES (merge_deps nd dr).
Proof.
  unfold merge_deps. revert nd. induction dr as [|[k recs] dr IH]; simpl; intros nd Hnd Hdr;
    [exact Hnd|].
  inversion Hdr as [|? ? Hh Ht]; subst. simpl in Hh. apply IH; [|exact Ht].
  destruct (dict_get nd k) as [ex|] eqn:Ek; apply deps_wf_set; auto.
  apply append_missing_ok; [apply (deps_wf_get _ _ _ _ Hnd Ek)|apply Hh].
Qed.

Lemma add_recipe_ok RECIPES nd rec :
  deps_wf RECIPES nd -> in_catalog RECIPES rec -> deps_wf RECIPES (add_recipe nd rec).
Proof.
  intros Hnd Hc. unfold add_recipe.
  destruct (dict_get nd (name (pkg rec))) as [l|] eqn:El.
  - destruct (mem_recipe rec l) eqn:Em; [exact Hnd|]. apply deps_wf_set; [exact Hnd|].
    apply entry_ok_snoc; auto. apply (deps_wf_get _ _ _ _ Hnd El).
  - apply deps_wf_set; [exact Hnd|]. split.
    + constructor; [intros []|constructor].
    + constructor; [auto|constructor].
Qed.

Lemma resolve_candidates_ok recurse check RECIPES chain p :
  (forall rec cs ch nd cs', recurse rec cs RECIPES ch = Some (Ok (nd, cs')) -> deps_wf RECIPES nd) ->
  forall recs nd cs fa fl nd' cs' fa' fl',
  (forall rec, In rec recs -> in_catalog RECIPES rec) -> deps_wf RECIPES nd ->
  resolve_candidates recurse check RECIPES chain p recs (nd, cs, fa, fl)
    = Some (Ok (nd', cs', fa', fl')) -> deps_wf RECIPES nd'.
Proof.
  intros Hr. induction recs as [|rec recs IH]; simpl;
    intros nd cs fa fl nd' cs' fa' fl' Hin Hnd H.
  - injection H as <- _ _ _. exact Hnd.
  - assert (Hin' : forall r, In r recs -> in_catalog RECIPES r) by (intros; apply Hin; auto).
    destruct (req_conflicts_with (pkg rec) p); [eapply IH; eauto|].
    destruct (check rec cs RECIPES chain) as [[[c fc]|e]|]; simpl in H; try discriminate.
    destruct c; [eapply IH; eauto|].
    destruct (recurse rec cs RECIPES (chain ++ [CPkg (pkg rec)])) as [[[dr cs1]|e]|] eqn:E;
      simpl in H; try discriminate.
    eapply IH; [exact Hin'| |exact H].
    apply add_recipe_ok; [|apply Hin; left; reflexivity].
    apply merge_deps_ok; [exact Hnd|]. destruct (Hr _ _ _ _ _ E) as [_ Hf]. exact Hf.
Qed.

Lemma resolve_entries_ok recurse check RECIPES chain :
  (forall rec cs ch nd cs', recurse rec cs RECIPES ch = Some (Ok (nd, cs')) -> deps_wf RECIPES nd) ->
  forall ps nd cs nd' cs', deps_wf RECIPES nd ->
  resolve_entries recurse check RECIPES chain ps (nd, cs) = Some (Ok (nd', cs')) ->
  deps_wf RECIPES nd'.
Proof.
  intros Hr. induction ps as [|p ps IH]; simpl; intros nd cs nd' cs' Hnd H.
  - injection H as <- _. exact Hnd.
  - destruct (dict_get RECIPES (name p)) as [recs|] eqn:Ec; [|discriminate].
    destruct (resolve_candidates recurse check RECIPES chain p recs (nd, cs, false, []))
      as [[[[[nd1 cs1] fa] fl]|e]|] eqn:E; simpl in H; try discriminate.
    destruct fa; simpl in H; [|discriminate].
    eapply IH; [|exact H]. eapply (resolve_candidates_ok _ _ _ _ _ Hr); [| |exact E].
    + intros rec Hrec. exists (name p), recs. auto.
    + exact Hnd.
Qed.

Lemma build_dependency_tree_deps_wf_gen fuel recipe cs RECIPES chain nd cs' :
  build_dependency_tree fuel recipe cs RECIPES chain = Some (Ok (nd, cs')) -> deps_wf RECIPES nd.
Proof.
  revert recipe cs chain nd cs'. induction fuel as [|n IH]; intros recipe cs chain nd cs' H;
    [discriminate|].
  simpl in H. destruct (merged_requires_of recipe) as [mr|e]; simpl in H; [|discriminate].
  destruct (add_constraints cs mr) as [cs1|e]; simpl in H; [|discriminate].
  eapply resolve_entries_ok; [| |exact H]; [|apply deps_wf_nil].
  intros. eapply IH. eassumption.
Qed.

(** The dict [build_dependency_tree] returns has one entry per family; each
    entry lists recipes of that family only, each taken from the catalog and
    listed once. *)
Theorem build_dependency_tree_deps_wf (fuel : nat) (recipe : Recipe) (constraints : PackageList)
  (RECIPES : Catalog) (chain : Chain) (new_deps : Deps) (constraints' : PackageList)
  (H : build_dependency_tree fuel recipe constraints RECIPES chain
       = Some (Ok (new_deps, constraints'))) :
  deps_wf RECIPES new_deps.
Proof. exact (build_dependency_tree_deps_wf_gen _ _ _ _ _ _ _ H). Qed.

Lemma build_dependency_tree_deps_wf_witness :
  build_dependency_tree 2 root_x [req "x" 0 (Some 5)] catalog_x12 []
    = Some (Ok ([("x", [rec_x1; rec_x2])], [req "x" 0 (Some 5)]))
  /\ deps_wf catalog_x12 [("x", [rec_x1; rec_x2])].
Proof.
  split; [reflexivity|].
  exact (build_dependency_tree_deps_wf 2 root_x [req "x" 0 (Some 5)] catalog_x12 []
           [("x", [rec_x1; rec_x2])] [req "x" 0 (Some 5)] eq_refl).
Defined.


(** ** [build_variant_path] *)

Lemma nth_error_skipn {X} (l : list X) n x :
  nth_error l n = Some x -> skipn n l = x :: skipn (S n) l.
Proof.
  revert n. induction l as [|y l IH]; intros [|n] H; simpl in *; try discriminate.
  - injection H as ->. reflexivity.
  - apply IH, H.
Qed.

Lemma nth_error_lt {X} (l : list X) n x : nth_error l n = Some x -> n < length l.
Proof. intros H. apply nth_error_Some. congruence. Qed.

Section VariantPathProps.
Variable listdir : string -> list string.
Variable isdir : string -> bool.
Variable parse_request : string -> option PackageRequest.

Lemma build_variant_path_loop_none recurse variant path comp fs :
  comp <= length variant ->
  (forall p, S comp <= length variant -> recurse variant p (S comp) <> None) ->
  build_variant_path_loop isdir parse_request recurse variant path comp fs <> None.
Proof.
  intros Hc Hr. induction fs as [|f fs IH]; simpl; [discriminate|].
  destruct (Nat.eqb comp (length variant) && String.eqb f "package.py"); [discriminate|].
  destruct (isdir (path_join path f)); [|exact IH].
  destruct (parse_request f) as [pd|]; [|discriminate].
  destruct (nth_error variant comp) as [vd|] eqn:E; [|discriminate].
  destruct (String.eqb (name vd) (name pd) && intersects (range vd) (range pd)); [|exact IH].
  apply Hr. apply nth_error_lt in E. lia.
Qed.

(** [build_variant_path] always returns or raises: its recursion goes at
    most [len(variant) - comp] levels deep. *)
Theorem build_variant_path_depth (fuel : nat) (variant : PackageList) (path : string) (comp : nat)
  (Hc : comp <= length variant) (Hf : length variant - comp < fuel) :
  build_variant_path listdir isdir parse_request fuel variant path comp <> None.
Proof.
  revert path comp Hc Hf. induction fuel as [|n IH]; intros path comp Hc Hf; [lia|].
  simpl. apply build_variant_path_loop_none; [exact Hc|].
  intros p Hc'. apply IH; lia.
Qed.

Lemma build_variant_path_loop_result recurse variant path comp fs p :
  (forall p' r, S comp <= length variant -> recurse variant p' (S comp) = Some (VPath r) ->
     exists dirs, r = path_join (fold_left path_join dirs p') "package.py"
       /\ Forall2 (fun d vd => exists pd, parse_request d = Some pd /\ name pd = name vd
                                          /\ intersects (range vd) (range pd) = true)
                  dirs (skipn (S comp) variant)) ->
  build_variant_path_loop isdir parse_request recurse variant path comp fs = Some (VPath p) ->
  exists dirs, p = path_join (fold_left path_join dirs path) "package.py"
    /\ Forall2 (fun d vd => exists pd, parse_request d = Some pd /\ name pd = name vd
                                       /\ intersects (range vd) (range pd) = true)
               dirs (skipn comp variant).
Proof.
  intros Hr. induction fs as [|f fs IH]; simpl; [discriminate|].
  destruct (Nat.eqb comp (length variant) && String.eqb f "package.py") eqn:E.
  - intros H. injection H as <-. apply andb_true_iff in E as [E _].
    apply Nat.eqb_eq in E. exists []. split; [reflexivity|].
    rewrite E, skipn_all. constructor.
  - destruct (isdir (path_join path f)); [|exact IH].
    destruct (parse_request f) as [pd|] eqn:Ep; [|discriminate].
    destruct (nth_error variant comp) as [vd|] eqn:En; [|discriminate].
    destruct (String.eqb (name vd) (name pd) && intersects (range vd) (range pd)) eqn:Em;
      [|exact IH].
    intros H. apply andb_true_iff in Em as [Em1 Em2]. apply String.eqb_eq in Em1.
    destruct (Hr _ _ (nth_error_lt _ _ _ En) H) as [dirs [-> Hd]].
    exists (f :: dirs). split; [reflexivity|].
    rewrite (nth_error_skipn _ _ _ En). constructor; [|exact Hd].
    exists pd. auto.
Qed.

(** A path [build_variant_path] returns is [path/d1/.../dk/package.py]
    with one directory per remaining variant entry, in order, each directory
    name parsing to a request of that entry's family with an intersecting
    range. *)
Theorem build_variant_path_result (fuel : nat) (variant : PackageList) (path : string)
  (comp : nat) (p : string)
  (H : build_variant_path listdir isdir parse_request fuel variant path comp = Some (VPath p)) :
  exists dirs, p = path_join (fold_left path_join dirs path) "package.py"
    /\ Forall2 (fun d vd => exists pd, parse_request d = Some pd /\ name pd = name vd
                                       /\ intersects (range vd) (range pd) = true)
               dirs (skipn comp variant).
Proof.
  revert path comp p H. induction fuel as [|n IH]; intros path comp p H; [discriminate|].
  simpl in H. eapply build_variant_path_loop_result; [|exact H].
  intros p' r _ Hr. apply IH. exact Hr.
Qed.

(** At the depth where every variant entry has been matched, a
    subdirectory listed before [package.py] makes [variant[comp]] raise
    [IndexError] (not the [RuntimeError] [find_recipe_resource] catches). *)
Theorem build_variant_path_IndexError (fuel : nat) (variant : PackageList) (path : string)
  (pre : list string) (f : string) (post : list string) (pd : PackageRequest)
  (Hls : listdir path = pre ++ f :: post)
  (Hpre : Forall (fun g => g <> "package.py" /\ isdir (path_join path g) = false) pre)
  (Hf : f <> "package.py") (Hdir : isdir (path_join path f) = true)
  (Hp : parse_request f = Some pd) :
  build_variant_path listdir isdir parse_request (S fuel) variant path (length variant)
  = Some VIndexError.
Proof.
  simpl. rewrite Hls. clear Hls. induction Hpre as [|g pre [Hg Hgd] _ IH]; simpl.
  - rewrite Nat.eqb_refl. apply String.eqb_neq in Hf. rewrite Hf. simpl.
    rewrite Hdir, Hp, (proj2 (nth_error_None variant (length variant)) (le_n _)). reflexivity.
  - rewrite Nat.eqb_refl. apply String.eqb_neq in Hg. rewrite Hg. simpl. rewrite Hgd. exact IH.
Qed.

(** [build_variant_path] commits to the first subdirectory that matches the
    current variant entry: its result is that of the recursive call there,
    whatever the later entries of the listing are; a [RuntimeError] below it
    is not followed by a try of a later matching sibling. *)
Theorem build_variant_path_commits (fuel : nat) (variant : PackageList) (path : string)
  (comp : nat) (pre : list string) (f : string) (post : list string)
  (pd vd : PackageRequest)
  (Hls : listdir path = pre ++ f :: post)
  (Hvd : nth_error variant comp = Some vd)
  (Hpre : Forall (fun g => isdir (path_join path g) = false
                           \/ exists pg, parse_request g = Some pg
                                         /\ String.eqb (name vd) (name pg)
                                            && intersects (range vd) (range pg) = false) pre)
  (Hdir : isdir (path_join path f) = true) (Hp : parse_request f = Some pd)
  (Hn : name pd = name vd) (Hi : intersects (range vd) (range pd) = true) :
  build_variant_path listdir isdir parse_request (S fuel) variant path comp
  = build_variant_path listdir isdir parse_request fuel variant (path_join path f) (S comp).
Proof.
  simpl. rewrite Hls. clear Hls.
  assert (Hc : Nat.eqb comp (length variant) = false).
  { apply Nat.eqb_neq. apply nth_error_lt in Hvd. lia. }
  induction Hpre as [|g pre Hg _ IH]; simpl; rewrite Hc; simpl.
  - rewrite Hdir, Hp, Hvd, Hn, String.eqb_refl, Hi. reflexivity.
  - destruct Hg as [Hg|[pg [Hpg Hm]]]; [rewrite Hg; exact IH|].
    destruct (isdir (path_join path g)); [|exact IH].
    rewrite Hpg, Hvd, Hm. exact IH.
Qed.

End VariantPathProps.

(** ** [find_recipe_resource] *)

(** [find_recipe_resource] catches the [RuntimeError] of
    [build_variant_path] only: for a recipe without variant, a subdirectory
    of the version directory listed before its [package.py] makes the call
    raise [IndexError]. *)
Theorem find_recipe_resource_IndexError (listdir : string -> list string)
  (isdir : string -> bool) (parse_request : string -> option PackageRequest)
  (fuel : nat) (RECIPES_PATH name version : string)
  (pre : list string) (f : string) (post : list string) (pd : PackageRequest)
  (Hls : listdir (path_join (path_join RECIPES_PATH name) version) = pre ++ f :: post)
  (Hpre : Forall (fun g => g <> "package.py"
                           /\ isdir (path_join (path_join (path_join RECIPES_PATH name) version) g)
                              = false) pre)
  (Hf : f <> "package.py")
  (Hdir : isdir (path_join (path_join (path_join RECIPES_PATH name) version) f) = true)
  (Hp : parse_request f = Some pd) :
  find_recipe_resource listdir isdir parse_request (S fuel) RECIPES_PATH name version []
  = Some VIndexError.
Proof.
  unfold find_recipe_resource.
  pose proof (build_variant_path_IndexError listdir isdir parse_request fuel []
                _ pre f post pd Hls Hpre Hf Hdir Hp) as H.
  simpl length in H. rewrite H. reflexivity.
Qed.

(** Witnesses, on the tree [demo_listdir]. *)
Lemma build_variant_path_depth_witness :
  0 <= length [py_any] /\ length [py_any] - 0 < 2
  /\ build_variant_path demo_listdir demo_isdir demo_parse 2 [py_any] "r/x/1" 0 <> None.
Proof.
  split; [simpl; lia|]. split; [simpl; lia|].
  apply build_variant_path_depth; simpl; lia.
Defined.

Lemma build_variant_path_result_witness :
  build_variant_path demo_listdir demo_isdir demo_parse 2 [req "python" 2 (Some 3)] "r/x/1" 0
    = Some (VPath "r/x/1/python-2/package.py")
  /\ exists dirs, "r/x/1/python-2/package.py"
                  = path_join (fold_left path_join dirs "r/x/1") "package.py"
       /\ Forall2 (fun d vd => exists pd, demo_parse d = Some pd /\ name pd = name vd
                                          /\ intersects (range vd) (range pd) = true)
                  dirs (skipn 0 [req "python" 2 (Some 3)]).
Proof.
  split; [reflexivity|].
  exact (build_variant_path_result demo_listdir demo_isdir demo_parse 2
           [req "python" 2 (Some 3)] "r/x/1" 0 "r/x/1/python-2/package.py" eq_refl).
Defined.

Lemma build_variant_path_IndexError_witness :
  demo_listdir "r/y/1" = [] ++ "patches" :: ["package.py"]
  /\ build_variant_path demo_listdir demo_isdir demo_parse 1 [] "r/y/1" (length ([] : PackageList))
     = Some VIndexError.
Proof.
  split; [reflexivity|].
  apply (build_variant_path_IndexError demo_listdir demo_isdir demo_parse 0 [] "r/y/1" []
           "patches" ["package.py"] (req "patches" 0 None)).
  - reflexivity.
  - constructor.
  - discriminate.
  - reflexivity.
  - reflexivity.
Defined.

Lemma find_recipe_resource_IndexError_witness :
  demo_listdir (path_join (path_join "r" "y") "1") = [] ++ "patches" :: ["package.py"]
  /\ find_recipe_resource demo_listdir demo_isdir demo_parse 1 "r" "y" "1" [] = Some VIndexError.
Proof.
  split; [reflexivity|].
  apply (find_recipe_resource_IndexError demo_listdir demo_isdir demo_parse 0 "r" "y" "1" []
           "patches" ["package.py"] (req "patches" 0 None)).
  - reflexivity.
  - constructor.
  - discriminate.
  - reflexivity.
  - reflexivity.
Defined.

(** Here [python-3] matches first and holds no [package.py]: the call
    fails although [python-2] would match, and [find_recipe_resource]
    falls back to the version directory. *)
Lemma build_variant_path_commits_witness :
  build_variant_path demo_listdir demo_isdir demo_parse 2 [py_any] "r/x/1" 0
    = build_variant_path demo_listdir demo_isdir demo_parse 1 [py_any] "r/x/1/python-3" 1
  /\ build_variant_path demo_listdir demo_isdir demo_parse 2 [py_any] "r/x/1" 0
     = Some VRuntimeError
  /\ find_recipe_resource demo_listdir demo_isdir demo_parse 2 "r" "x" "1" [py_any]
     = Some (VPath "r/x/1/package.py").
Proof.
  split; [|split; reflexivity].
  apply (build_variant_path_commits demo_listdir demo_isdir demo_parse 1 [py_any] "r/x/1" 0 []
           "python-3" ["python-2"] (req "python" 3 (Some 4)) py_any).
  - reflexivity.
  - reflexivity.
  - constructor.
  - reflexivity.
  - reflexivity.
  - reflexivity.
  - reflexivity.
Defined.


(** ** The main block *)

Lemma mem_recipe_app r l1 l2 : mem_recipe r (l1 ++ l2) = mem_recipe r l1 || mem_recipe r l2.
Proof. unfold mem_recipe. apply existsb_app. Qed.

Lemma mem_recipe_In r l : mem_recipe r l = true -> exists r', In r' l /\ rid r' = rid r.
Proof.
  unfold mem_recipe. intros H. apply existsb_exists in H as [r' [Hin He]].
  exists r'. split; [exact Hin|]. apply Nat.eqb_eq, He.
Qed.

Lemma mem_recipe_self r l : In r l -> mem_recipe r l = true.
Proof.
  intros Hin. unfold mem_recipe. apply existsb_exists. exists r.
  split; [exact Hin|]. apply Nat.eqb_refl.
Qed.

(** The invariant of the split: installed recipes on the left, the others on
    the right, no recipe twice. *)
Definition sel_ok (sel : list Recipe * list Recipe) : Prop :=
  Forall (fun r => installed r = true) (fst sel)
  /\ Forall (fun r => installed r = false) (snd sel)
  /\ NoDup (map rid (fst sel ++ snd sel)).

Lemma select_recipe_ok rec sel : sel_ok sel -> sel_ok (select_recipe rec sel).
Proof.
  destruct sel as [si sc]. intros (Hi & Hc & Hnd). unfold select_recipe.
  destruct (mem_recipe rec si) eqn:Ei, (mem_recipe rec sc) eqn:Ec;
    destruct (installed rec) eqn:Ein; simpl; try (split; [|split]; assumption).
  all: assert (Hn : ~ In (rid rec) (map rid (si ++ sc)))
         by (apply mem_recipe_false; rewrite mem_recipe_app, Ei, Ec; reflexivity).
  - split; [|split]; simpl.
    + apply Forall_app. split; [exact Hi|]. constructor; [exact Ein|constructor].
    + exact Hc.
    + eapply Permutation_NoDup; [|constructor; [exact Hn|exact Hnd]].
      rewrite <- app_assoc, !map_app. simpl. apply Permutation_middle.
  - split; [|split]; simpl.
    + exact Hi.
    + apply Forall_app. split; [exact Hc|]. constructor; [exact Ein|constructor].
    + rewrite app_assoc, map_app. apply NoDup_snoc; [exact Hnd|exact Hn].
Qed.

Lemma select_recipe_mem rec sel :
  mem_recipe rec (fst (select_recipe rec sel) ++ snd (select_recipe rec sel)) = true.
Proof.
  destruct sel as [si sc]. unfold select_recipe.
  destruct (mem_recipe rec si) eqn:Ei, (mem_recipe rec sc) eqn:Ec, (installed rec);
    cbn [negb andb fst snd];
    rewrite ?mem_recipe_app, ?Ei, ?Ec, ?(mem_recipe_self rec [rec] (or_introl eq_refl));
    reflexivity.
Qed.

Lemma select_recipe_keeps r rec sel :
  mem_recipe r (fst sel ++ snd sel) = true ->
  mem_recipe r (fst (select_recipe rec sel) ++ snd (select_recipe rec sel)) = true.
Proof.
  destruct sel as [si sc]. unfold select_recipe. cbn [fst snd]. rewrite !mem_recipe_app. intros H.
  destruct (installed rec), (negb (mem_recipe rec si) && negb (mem_recipe rec sc));
    cbn [fst snd]; rewrite ?mem_recipe_app;
    destruct (mem_recipe r si), (mem_recipe r sc); try discriminate;
    rewrite ?orb_true_r; reflexivity.
Qed.

Lemma select_recipe_from r rec sel :
  In r (fst (select_recipe rec sel) ++ snd (select_recipe rec sel)) ->
  In r (fst sel ++ snd sel) \/ r = rec.
Proof.
  destruct sel as [si sc]. unfold select_recipe. simpl. intros H.
  destruct (installed rec), (negb (mem_recipe rec si) && negb (mem_recipe rec sc));
    simpl in H; auto.
  - rewrite <- app_assoc in H. apply in_app_or in H as [H|[H|H]]; auto using in_or_app.
  - rewrite app_assoc in H. apply in_app_or in H as [H|[H|[]]]; auto.
Qed.

Lemma select_deps_ok deps : forall sel sel',
  sel_ok sel -> select_deps deps sel = Some sel' -> sel_ok sel'.
Proof.
  induction deps as [|[n [|rec recs]] deps IH]; simpl; intros sel sel' Hs H.
  - injection H as <-. exact Hs.
  - discriminate.
  - eapply IH; [apply select_recipe_ok, Hs|exact H].
Qed.

Lemma select_deps_keeps deps : forall sel sel' r,
  select_deps deps sel = Some sel' ->
  mem_recipe r (fst sel ++ snd sel) = true -> mem_recipe r (fst sel' ++ snd sel') = true.
Proof.
  induction deps as [|[n [|rec recs]] deps IH]; simpl; intros sel sel' r H Hm.
  - injection H as <-. exact Hm.
  - discriminate.
  - eapply IH; [exact H|]. apply select_recipe_keeps, Hm.
Qed.

Lemma select_deps_heads deps : forall sel sel',
  select_deps deps sel = Some sel' ->
  forall n rec recs, In (n, rec :: recs) deps -> mem_recipe rec (fst sel' ++ snd sel') = true.
Proof.
  induction deps as [|[n [|rec recs]] deps IH]; simpl; intros sel sel' H n' rec' recs' Hin;
    try discriminate; [destruct Hin|].
  destruct Hin as [Heq|Hin].
  - injection Heq as <- <- <-. eapply select_deps_keeps; [exact H|]. apply select_recipe_mem.
  - eapply IH; eassumption.
Qed.

Lemma select_deps_from deps : forall sel sel' r,
  select_deps deps sel = Some sel' -> In r (fst sel' ++ snd sel') ->
  In r (fst sel ++ snd sel) \/ exists n recs, In (n, r :: recs) deps.
Proof.
  induction deps as [|[n [|rec recs]] deps IH]; simpl; intros sel sel' r H Hin.
  - injection H as <-. left; exact Hin.
  - discriminate.
  - destruct (IH _ _ _ H Hin) as [H1|[n' [recs' H1]]].
    + apply select_recipe_from in H1 as [H1| <-]; [left; exact H1|].
      right. exists n, recs. left; reflexivity.
    + right. exists n', recs'. right; exact H1.
Qed.

Lemma select_deps_none deps sel : select_deps deps sel = None <-> exists n, In (n, []) deps.
Proof.
  revert sel. induction deps as [|[n [|rec recs]] deps IH]; simpl; intros sel.
  - split; [discriminate|]. intros [n []].
  - split; [intros _; exists n; left; reflexivity|reflexivity].
  - rewrite IH. split; intros [n' H]; exists n'.
    + right; exact H.
    + destruct H as [H|H]; [discriminate|exact H].
Qed.

(** Recipes put into [selected_installed] are installed, those put into
    [selected_to_cook] are not, and no recipe is selected twice, in one list
    or across the two. *)
Theorem split_selected_partition (trees : list (Recipe * Deps))
  (selected_installed selected_to_cook : list Recipe)
  (H : split_selected trees = Some (selected_installed, selected_to_cook)) :
  Forall (fun r => installed r = true) selected_installed
  /\ Forall (fun r => installed r = false) selected_to_cook
  /\ NoDup (map rid (selected_installed ++ selected_to_cook)).
Proof.
  change (sel_ok (selected_installed, selected_to_cook)).
  destruct trees as [|[top deps] rest]; simpl in H.
  - injection H as <- <-. split; [|split]; constructor.
  - destruct (select_deps deps ([], [])) as [sel|] eqn:E; [|discriminate].
    injection H as <-. apply select_recipe_ok. eapply select_deps_ok; [|exact E].
    split; [|split]; constructor.
Qed.

(** Only the first tree is split: its top-level recipe and the first recipe of
    each entry of its dependency dict are selected, and nothing else; the
    other trees are ignored. *)
Theorem split_selected_first_tree (toplevel : Recipe) (deps : Deps)
  (rest : list (Recipe * Deps)) (selected_installed selected_to_cook : list Recipe)
  (H : split_selected ((toplevel, deps) :: rest) = Some (selected_installed, selected_to_cook)) :
  mem_recipe toplevel (selected_installed ++ selected_to_cook) = true
  /\ (forall n rec recs, In (n, rec :: recs) deps ->
        mem_recipe rec (selected_installed ++ selected_to_cook) = true)
  /\ (forall r, In r (selected_installed ++ selected_to_cook) ->
        r = toplevel \/ exists n recs, In (n, r :: recs) deps).
Proof.
  simpl in H. destruct (select_deps deps ([], [])) as [sel|] eqn:E; [|discriminate].
  injection H as Hs.
  change (selected_installed ++ selected_to_cook)
    with (fst (selected_installed, selected_to_cook) ++ snd (selected_installed, selected_to_cook)).
  rewrite <- Hs. split; [|split].
  - apply select_recipe_mem.
  - intros n rec recs Hin. apply select_recipe_keeps. eapply select_deps_heads; eassumption.
  - intros r Hin. apply select_recipe_from in Hin as [Hin| ->]; [|left; reflexivity].
    right. destruct (select_deps_from _ _ _ _ E Hin) as [Hn|Hd]; [destruct Hn|exact Hd].
Qed.

(** [recs[0]] raises [IndexError] exactly when the dependency dict of the
    first tree has an empty entry. *)
Theorem split_selected_IndexError (toplevel : Recipe) (deps : Deps)
  (rest : list (Recipe * Deps)) :
  split_selected ((toplevel, deps) :: rest) = None <-> exists n, In (n, []) deps.
Proof.
  simpl. rewrite <- (select_deps_none deps ([], [])).
  destruct (select_deps deps ([], [])); split; congruence.
Qed.

Lemma split_selected_partition_witness :
  split_selected [(rec_x1, [("y", [rec_y_inst]); ("x", [rec_x2; rec_x1])]); (root_x, [])]
    = Some ([rec_y_inst], [rec_x2; rec_x1])
  /\ Forall (fun r => installed r = true) [rec_y_inst]
  /\ Forall (fun r => installed r = false) [rec_x2; rec_x1]
  /\ NoDup (map rid ([rec_y_inst] ++ [rec_x2; rec_x1])).
Proof.
  split; [reflexivity|].
  exact (split_selected_partition
           [(rec_x1, [("y", [rec_y_inst]); ("x", [rec_x2; rec_x1])]); (root_x, [])]
           [rec_y_inst] [rec_x2; rec_x1] eq_refl).
Defined.

Lemma split_selected_first_tree_witness :
  split_selected [(rec_x1, [("y", [rec_y_inst]); ("x", [rec_x2; rec_x1])]); (root_x, [])]
    = Some ([rec_y_inst], [rec_x2; rec_x1])
  /\ mem_recipe root_x ([rec_y_inst] ++ [rec_x2; rec_x1]) = false
  /\ mem_recipe rec_x1 ([rec_y_inst] ++ [rec_x2; rec_x1]) = true.
Proof.
  split; [reflexivity|]. split; [reflexivity|].
  exact (proj1 (split_selected_first_tree rec_x1 [("y", [rec_y_inst]); ("x", [rec_x2; rec_x1])]
                  [(root_x, [])] [rec_y_inst] [rec_x2; rec_x1] eq_refl)).
Defined.

(** *** The dependency dicts have no empty entry *)

Lemma deps_nonempty_set nd k v :
  deps_nonempty nd -> v <> [] -> deps_nonempty (dict_set nd k v).
Proof.
  unfold deps_nonempty. intros Hf Hv. induction nd as [|[k' v'] nd IH]; simpl; [constructor; [exact Hv|constructor]|].
  inversion Hf as [|? ? Hh Ht]; subst.
  destruct (String.eqb k k'); constructor; auto.
Qed.

Lemma deps_nonempty_get nd k l : deps_nonempty nd -> dict_get nd k = Some l -> l <> [].
Proof.
  intros Hf Hg. apply dict_get_in in Hg. unfold deps_nonempty in Hf.
  rewrite Forall_forall in Hf. exact (Hf _ Hg).
Qed.

Lemma append_missing_nonempty ex drs : ex <> [] -> append_missing ex drs <> [].
Proof.
  unfold append_missing. revert ex. induction drs as [|dr drs IH]; simpl; intros ex Hex;
    [exact Hex|].
  apply IH. destruct (mem_recipe dr ex); [exact Hex|]. destruct ex; discriminate.
Qed.

Lemma merge_deps_nonempty nd dr :
  deps_nonempty nd -> deps_nonempty dr -> deps_nonempty (merge_deps nd dr).
Proof.
  unfold merge_deps. revert nd. induction dr as [|[k recs] dr IH]; simpl; intros nd Hnd Hdr;
    [exact Hnd|].
  inversion Hdr as [|? ? Hh Ht]; subst. simpl in Hh. apply IH; [|exact Ht].
  destruct (dict_get nd k) as [ex|] eqn:Ek; apply deps_nonempty_set; auto.
  apply append_missing_nonempty. exact (deps_nonempty_get _ _ _ Hnd Ek).
Qed.

Lemma add_recipe_nonempty nd rec : deps_nonempty nd -> deps_nonempty (add_recipe nd rec).
Proof.
  intros Hnd. unfold add_recipe.
  destruct (dict_get nd (name (pkg rec))) as [l|] eqn:El.
  - destruct (mem_recipe rec l); [exact Hnd|]. apply deps_nonempty_set; [exact Hnd|].
    destruct l; discriminate.
  - apply deps_nonempty_set; [exact Hnd|discriminate].
Qed.

Lemma resolve_candidates_nonempty recurse check RECIPES chain p :
  (forall rec cs ch nd cs', recurse rec cs RECIPES ch = Some (Ok (nd, cs')) -> deps_nonempty nd) ->
  forall recs nd cs fa fl nd' cs' fa' fl', deps_nonempty nd ->
  resolve_candidates recurse check RECIPES chain p recs (nd, cs, fa, fl)
    = Some (Ok (nd', cs', fa', fl')) -> deps_nonempty nd'.
Proof.
  intros Hr. induction recs as [|rec recs IH]; simpl;
    intros nd cs fa fl nd' cs' fa' fl' Hnd H.
  - injection H as <- _ _ _. exact Hnd.
  - destruct (req_conflicts_with (pkg rec) p); [eapply IH; eauto|].
    destruct (check rec cs RECIPES chain) as [[[c fc]|e]|]; simpl in H; try discriminate.
    destruct c; [eapply IH; eauto|].
    destruct (recurse rec cs RECIPES (chain ++ [CPkg (pkg rec)])) as [[[dr cs1]|e]|] eqn:E;
      simpl in H; try discriminate.
    eapply IH; [|exact H].
    apply add_recipe_nonempty, merge_deps_nonempty; [exact Hnd|]. exact (Hr _ _ _ _ _ E).
Qed.

Lemma resolve_entries_nonempty recurse check RECIPES chain :
  (forall rec cs ch nd cs', recurse rec cs RECIPES ch = Some (Ok (nd, cs')) -> deps_nonempty nd) ->
  forall ps nd cs nd' cs', deps_nonempty nd ->
  resolve_entries recurse check RECIPES chain ps (nd, cs) = Some (Ok (nd', cs')) ->
  deps_nonempty nd'.
Proof.
  intros Hr. induction ps as [|p ps IH]; simpl; intros nd cs nd' cs' Hnd H.
  - injection H as <- _. exact Hnd.
  - destruct (dict_get RECIPES (name p)) as [recs|]; [|discriminate].
    destruct (resolve_candidates recurse check RECIPES chain p recs (nd, cs, false, []))
      as [[[[[nd1 cs1] fa] fl]|e]|] eqn:E; simpl in H; try discriminate.
    destruct fa; simpl in H; [|discriminate].
    eapply IH; [|exact H]. eapply (resolve_candidates_nonempty _ _ _ _ _ Hr); [|exact E].
    exact Hnd.
Qed.

Lemma build_dependency_tree_nonempty_gen fuel recipe cs RECIPES chain nd cs' :
  build_dependency_tree fuel recipe cs RECIPES chain = Some (Ok (nd, cs')) -> deps_nonempty nd.
Proof.
  revert recipe cs chain nd cs'. induction fuel as [|n IH]; intros recipe cs chain nd cs' H;
    [discriminate|].
  simpl in H. destruct (merged_requires_of recipe) as [mr|e]; simpl in H; [|discriminate].
  destruct (add_constraints cs mr) as [cs1|e]; simpl in H; [|discriminate].
  eapply resolve_entries_nonempty; [| |exact H]; [|constructor].
  intros. eapply IH. eassumption.
Qed.

Lemma build_dependency_tree_entries_nonempty_gen fuel recipe cs RECIPES chain nd cs' :
  build_dependency_tree fuel recipe cs RECIPES chain = Some (Ok (nd, cs')) ->
  forall n recs, In (n, recs) nd -> recs <> [].
Proof.
  intros H n recs Hin. pose proof (build_dependency_tree_nonempty_gen _ _ _ _ _ _ _ H) as Hne.
  unfold deps_nonempty in Hne. rewrite Forall_forall in Hne. exact (Hne _ Hin).
Qed.

(** Every entry of the dict [build_dependency_tree] returns lists at least
    one recipe: [recs[0]] of the main block never raises on it. *)
Theorem build_dependency_tree_entries_nonempty (fuel : nat) (recipe : Recipe)
  (constraints : PackageList) (RECIPES : Catalog) (chain : Chain) (new_deps : Deps)
  (constraints' : PackageList)
  (H : build_dependency_tree fuel recipe constraints RECIPES chain
       = Some (Ok (new_deps, constraints'))) :
  forall n recs, In (n, recs) new_deps -> recs <> [].
Proof. exact (build_dependency_tree_entries_nonempty_gen _ _ _ _ _ _ _ H). Qed.

Lemma build_dependency_tree_entries_nonempty_witness :
  build_dependency_tree 2 root_x [req "x" 0 (Some 5)] catalog_x12 []
    = Some (Ok ([("x", [rec_x1; rec_x2])], [req "x" 0 (Some 5)]))
  /\ [rec_x1; rec_x2] <> [].
Proof.
  split; [reflexivity|].
  exact (build_dependency_tree_entries_nonempty 2 root_x [req "x" 0 (Some 5)] catalog_x12 []
           [("x", [rec_x1; rec_x2])] [req "x" 0 (Some 5)] eq_refl "x" _ (or_introl eq_refl)).
Defined.

(** *** The loop over [available_recipes] *)

Lemma build_trees_loop_prefix fuel RECIPES rc recs : forall trees fa trees' fa',
  build_trees_loop fuel RECIPES rc recs trees fa = Some (Ok (trees', fa')) ->
  exists suf, trees' = trees ++ suf.
Proof.
  induction recs as [|rec recs IH]; simpl; intros trees fa trees' fa' H.
  - injection H as <- _. exists []. rewrite app_nil_r. reflexivity.
  - destruct (conflicts_with_package_list rec rc); [eapply IH; eassumption|].
    destruct (build_dependency_tree fuel rec rc RECIPES []) as [[[t cs]|e]|];
      simpl in H; try discriminate.
    apply IH in H as [suf ->]. destruct (trees_has rec trees).
    + exists suf. reflexivity.
    + exists ((rec, t) :: suf). rewrite <- app_assoc. reflexivity.
Qed.

Lemma trees_has_app r t1 t2 : trees_has r t1 = true -> trees_has r (t1 ++ t2) = true.
Proof. unfold trees_has. rewrite map_app, mem_recipe_app. intros ->. reflexivity. Qed.

Lemma build_trees_loop_found fuel RECIPES rc recs : forall trees fa trees' fa',
  build_trees_loop fuel RECIPES rc recs trees fa = Some (Ok (trees', fa')) ->
  fa' = fa || existsb (compatible rc) recs.
Proof.
  unfold compatible. induction recs as [|rec recs IH]; simpl; intros trees fa trees' fa' H.
  - injection H as _ <-. rewrite orb_false_r. reflexivity.
  - destruct (conflicts_with_package_list rec rc); simpl; [eapply IH; eassumption|].
    destruct (build_dependency_tree fuel rec rc RECIPES []) as [[[t cs]|e]|];
      simpl in H; try discriminate.
    rewrite orb_true_r. apply IH in H. exact H.
Qed.

Lemma build_trees_loop_keys fuel RECIPES rc recs : forall trees fa trees' fa',
  build_trees_loop fuel RECIPES rc recs trees fa = Some (Ok (trees', fa')) ->
  forall r t, In (r, t) trees' ->
  In (r, t) trees
  \/ (In r recs /\ compatible rc r = true
      /\ exists cs, build_dependency_tree fuel r rc RECIPES [] = Some (Ok (t, cs))).
Proof.
  unfold compatible. induction recs as [|rec recs IH]; simpl; intros trees fa trees' fa' H r t Hin.
  - injection H as <- _. left; exact Hin.
  - destruct (conflicts_with_package_list rec rc) eqn:Ec.
    + destruct (IH _ _ _ _ H _ _ Hin) as [H1|(H1 & H2 & H3)]; [left; exact H1|].
      right. auto.
    + destruct (build_dependency_tree fuel rec rc RECIPES []) as [[[t0 cs]|e]|] eqn:Eb;
        simpl in H; try discriminate.
      destruct (IH _ _ _ _ H _ _ Hin) as [H1|(H1 & H2 & H3)]; [|right; auto].
      destruct (trees_has rec trees); [left; exact H1|].
      apply in_app_or in H1 as [H1|[Heq|[]]]; [left; exact H1|].
      injection Heq as <- <-. right. split; [left; reflexivity|]. split; [rewrite Ec; reflexivity|].
      exists cs. exact Eb.
Qed.

Lemma build_trees_loop_all fuel RECIPES rc recs : forall trees fa trees' fa',
  build_trees_loop fuel RECIPES rc recs trees fa = Some (Ok (trees', fa')) ->
  forall r, In r recs -> compatible rc r = true ->
  (exists t cs, build_dependency_tree fuel r rc RECIPES [] = Some (Ok (t, cs)))
  /\ trees_has r trees' = true.
Proof.
  unfold compatible. induction recs as [|rec recs IH]; simpl; intros trees fa trees' fa' H r Hin Hc;
    [destruct Hin|].
  destruct (conflicts_with_package_list rec rc) eqn:Ec.
  - destruct Hin as [<-|Hin]; [rewrite Ec in Hc; discriminate|]. eapply IH; eassumption.
  - destruct (build_dependency_tree fuel rec rc RECIPES []) as [[[t0 cs]|e]|] eqn:Eb;
      simpl in H; try discriminate.
    destruct Hin as [<-|Hin]; [|eapply IH; eassumption].
    split; [exists t0, cs; exact Eb|].
    destruct (build_trees_loop_prefix _ _ _ _ _ _ _ _ H) as [suf ->]. apply trees_has_app.
    destruct (trees_has rec trees) eqn:Eh; [exact Eh|].
    unfold trees_has. rewrite map_app, mem_recipe_app, orb_true_iff. right.
    apply mem_recipe_self. left; reflexivity.
Qed.

Lemma build_trees_loop_NoDup fuel RECIPES rc recs : forall trees fa trees' fa',
  build_trees_loop fuel RECIPES rc recs trees fa = Some (Ok (trees', fa')) ->
  NoDup (map rid (map fst trees)) -> NoDup (map rid (map fst trees')).
Proof.
  induction recs as [|rec recs IH]; simpl; intros trees fa trees' fa' H Hnd.
  - injection H as <- _. exact Hnd.
  - destruct (conflicts_with_package_list rec rc); [eapply IH; eassumption|].
    destruct (build_dependency_tree fuel rec rc RECIPES []) as [[[t cs]|e]|];
      simpl in H; try discriminate.
    eapply IH; [exact H|]. destruct (trees_has rec trees) eqn:Eh; [exact Hnd|].
    rewrite !map_app. apply NoDup_snoc; [exact Hnd|]. apply mem_recipe_false, Eh.
Qed.

Lemma build_trees_loop_first fuel RECIPES rc recs : forall fa t tree rest fa',
  build_trees_loop fuel RECIPES rc recs [] fa = Some (Ok ((t, tree) :: rest, fa')) ->
  find (compatible rc) recs = Some t.
Proof.
  unfold compatible. induction recs as [|rec recs IH]; simpl; intros fa t tree rest fa' H.
  - discriminate.
  - destruct (conflicts_with_package_list rec rc); simpl; [eapply IH; eassumption|].
    destruct (build_dependency_tree fuel rec rc RECIPES []) as [[[t0 cs]|e]|];
      simpl in H; try discriminate.
    destruct (build_trees_loop_prefix _ _ _ _ _ _ _ _ H) as [suf Hs].
    injection Hs as -> _ _. reflexivity.
Qed.

Lemma build_trees_loop_parts (fuel : nat) (RECIPES : Catalog)
  (requested_constraints : PackageList) (available_recipes : list Recipe)
  (trees : list (Recipe * Deps)) (found_any : bool)
  (H : build_trees_loop fuel RECIPES requested_constraints available_recipes [] false
       = Some (Ok (trees, found_any))) :
  found_any = existsb (compatible requested_constraints) available_recipes
  /\ (forall r t, In (r, t) trees ->
        In r available_recipes /\ compatible requested_constraints r = true
        /\ exists cs, build_dependency_tree fuel r requested_constraints RECIPES []
                      = Some (Ok (t, cs)))
  /\ (forall r, In r available_recipes -> compatible requested_constraints r = true ->
        (exists t cs, build_dependency_tree fuel r requested_constraints RECIPES []
                      = Some (Ok (t, cs)))
        /\ trees_has r trees = true)
  /\ NoDup (map rid (map fst trees))
  /\ match trees with
     | [] => True
     | (t, _) :: _ => find (compatible requested_constraints) available_recipes = Some t
     end.
Proof.
  split; [exact (build_trees_loop_found _ _ _ _ _ _ _ _ H)|].
  split; [|split; [|split]].
  - intros r t Hin. destruct (build_trees_loop_keys _ _ _ _ _ _ _ _ H _ _ Hin) as [[]|Hk].
    exact Hk.
  - exact (build_trees_loop_all _ _ _ _ _ _ _ _ H).
  - eapply build_trees_loop_NoDup; [exact H|constructor].
  - destruct trees as [|[t tree] rest]; [exact I|]. eapply build_trees_loop_first. exact H.
Qed.

(** The loop over [available_recipes] keeps one tree per compatible recipe,
    each the dict [build_dependency_tree] returns for it; the first tree is
    that of the first compatible recipe; [found_any] tells whether some
    recipe is compatible; and the loop returns only when the tree of every
    compatible recipe could be built: an exception in any of them is not
    caught. *)
Theorem build_trees_loop_spec (fuel : nat) (RECIPES : Catalog)
  (requested_constraints : PackageList) (available_recipes : list Recipe)
  (trees : list (Recipe * Deps)) (found_any : bool)
  (H : build_trees_loop fuel RECIPES requested_constraints available_recipes [] false
       = Some (Ok (trees, found_any))) :
  found_any = existsb (compatible requested_constraints) available_recipes
  /\ (forall r t, In (r, t) trees ->
        In r available_recipes /\ compatible requested_constraints r = true
        /\ exists cs, build_dependency_tree fuel r requested_constraints RECIPES []
                      = Some (Ok (t, cs)))
  /\ (forall r, In r available_recipes -> compatible requested_constraints r = true ->
        (exists t cs, build_dependency_tree fuel r requested_constraints RECIPES []
                      = Some (Ok (t, cs)))
        /\ trees_has r trees = true)
  /\ NoDup (map rid (map fst trees))
  /\ match trees with
     | [] => True
     | (t, _) :: _ => find (compatible requested_constraints) available_recipes = Some t
     end.
Proof. exact (build_trees_loop_parts _ _ _ _ _ _ H). Qed.

Lemma build_trees_loop_spec_witness :
  build_trees_loop 2 catalog_x12 [x_2] [rec_x1; rec_x2; rec_x2] [] false
    = Some (Ok ([(rec_x2, [])], true))
  /\ find (compatible [x_2]) [rec_x1; rec_x2; rec_x2] = Some rec_x2.
Proof.
  split; [reflexivity|].
  exact (proj2 (proj2 (proj2 (proj2
           (build_trees_loop_spec 2 catalog_x12 [x_2] [rec_x1; rec_x2; rec_x2]
              [(rec_x2, [])] true eq_refl))))).
Defined.

(** *** From the loop to the split *)

(** The main block's selection: it reports that no recipe is available
    exactly when every available recipe conflicts with the constraints;
    [recs[0]] never raises [IndexError]; and when it selects, the first
    compatible recipe is among the selected ones. *)
Theorem select_recipes_outcome (fuel : nat) (RECIPES : Catalog)
  (requested_constraints : PackageList) (available_recipes : list Recipe) (s : Selection)
  (H : select_recipes fuel RECIPES requested_constraints available_recipes = Some (Ok s)) :
  (s = NoCompatibleRecipe <->
     forall r, In r available_recipes -> compatible requested_constraints r = false)
  /\ s <> SelectIndexError
  /\ forall selected_installed selected_to_cook,
       s = Selected selected_installed selected_to_cook ->
       exists t, find (compatible requested_constraints) available_recipes = Some t
                 /\ mem_recipe t (selected_installed ++ selected_to_cook) = true.
Proof.
  unfold select_recipes in H.
  destruct (build_trees_loop fuel RECIPES requested_constraints available_recipes [] false)
    as [[[trees fa]|e]|] eqn:Eb; simpl in H; try discriminate.
  destruct (build_trees_loop_parts fuel RECIPES requested_constraints available_recipes trees fa Eb)
    as (Hfa & Hk & Hall & _ & Hfirst).
  destruct fa; simpl in H.
  - assert (Hne : trees <> []).
    { symmetry in Hfa. apply existsb_exists in Hfa as [r [Hin Hc]].
      destruct (Hall r Hin Hc) as [_ Ht]. intros ->. discriminate. }
    destruct trees as [|[t tree] rest]; [congruence|].
    destruct (Hk t tree (or_introl eq_refl)) as (_ & _ & cs & Ebt).
    assert (Hsd : select_deps tree ([], []) <> None).
    { rewrite select_deps_none. intros [n Hin].
      exact (build_dependency_tree_entries_nonempty_gen _ _ _ _ _ _ _ Ebt n [] Hin eq_refl). }
    simpl in H. destruct (select_deps tree ([], [])) as [sel|]; [|congruence].
    destruct (select_recipe t sel) as [si sc] eqn:Es. injection H as <-.
    split; [|split].
    + split; [discriminate|]. intros Hall'.
      symmetry in Hfa. apply existsb_exists in Hfa as [r [Hin Hc]].
      rewrite (Hall' r Hin) in Hc. discriminate.
    + discriminate.
    + intros si' sc' Heq. injection Heq as <- <-. exists t. split; [exact Hfirst|].
      pose proof (select_recipe_mem t sel) as Hm. rewrite Es in Hm. exact Hm.
  - injection H as <-. split; [|split; [discriminate|discriminate]].
    split; [|reflexivity]. intros _ r Hin.
    destruct (compatible requested_constraints r) eqn:Ec; [|reflexivity].
    assert (Ht : existsb (compatible requested_constraints) available_recipes = true)
      by (apply existsb_exists; exists r; auto).
    congruence.
Qed.

Lemma select_recipes_outcome_witness :
  select_recipes 2 catalog_x12 [] [rec_x1; rec_x2] = Some (Ok (Selected [] [rec_x1]))
  /\ exists t, find (compatible []) [rec_x1; rec_x2] = Some t
               /\ mem_recipe t ([] ++ [rec_x1]) = true.
Proof.
  split; [reflexivity|].
  exact (proj2 (proj2 (select_recipes_outcome 2 catalog_x12 [] [rec_x1; rec_x2]
                         (Selected [] [rec_x1]) eq_refl)) [] [rec_x1] eq_refl).
Defined.

(** A compatible recipe whose dependency tree raises stops the main block,
    even when an earlier compatible recipe has a tree and would be the one
    selected. *)
Theorem select_recipes_raises_with_any_tree (fuel : nat) (RECIPES : Catalog)
  (requested_constraints : PackageList) (available_recipes : list Recipe) (r : Recipe) (e : Exc)
  (Hin : In r available_recipes) (Hc : compatible requested_constraints r = true)
  (He : build_dependency_tree fuel r requested_constraints RECIPES [] = Some (Err e)) :
  forall s, select_recipes fuel RECIPES requested_constraints available_recipes <> Some (Ok s).
Proof.
  intros s H. unfold select_recipes in H.
  destruct (build_trees_loop fuel RECIPES requested_constraints available_recipes [] false)
    as [[[trees fa]|e']|] eqn:Eb; simpl in H; try discriminate.
  destruct (build_trees_loop_all _ _ _ _ _ _ _ _ Eb r Hin Hc) as [[t [cs Ht]] _].
  congruence.
Qed.

Lemma select_recipes_raises_with_any_tree_witness :
  build_dependency_tree 2 rec_x1 [] catalog_x12 [] = Some (Ok ([], []))
  /\ build_dependency_tree 2 rec_zz [] catalog_x12 []
     = Some (Err (RuntimeError (CouldNotFindRecipe (req "zz" 0 None))))
  /\ select_recipes 2 catalog_x12 [] [rec_x1; rec_zz]
     = Some (Err (RuntimeError (CouldNotFindRecipe (req "zz" 0 None))))
  /\ forall s, select_recipes 2 catalog_x12 [] [rec_x1; rec_zz] <> Some (Ok s).
Proof.
  split; [reflexivity|]. split; [reflexivity|]. split; [reflexivity|].
  exact (select_recipes_raises_with_any_tree 2 catalog_x12 [] [rec_x1; rec_zz] rec_zz
           (RuntimeError (CouldNotFindRecipe (req "zz" 0 None)))
           (or_intror (or_introl eq_refl)) eq_refl eq_refl).
Defined.


(** ** [parse_variants] *)

Lemma str_app_assoc (a b c : string) : ((a ++ b) ++ c = a ++ (b ++ c))%string.
Proof. induction a as [|x a IH]; simpl; [reflexivity|]. rewrite IH. reflexivity. Qed.

Lemma str_length_app (a b : string) :
  String.length (a ++ b)%string = String.length a + String.length b.
Proof. induction a as [|x a IH]; simpl; [reflexivity|]. rewrite IH. reflexivity. Qed.

Lemma strip_prefix_app p s : strip_prefix p (p ++ s)%string = Some s.
Proof. induction p as [|a p IH]; simpl; [reflexivity|]. rewrite Ascii.eqb_refl. exact IH. Qed.

Lemma take_run_app n c s :
  all_chars word_char n = true -> word_char c = false -> take_run (n ++ String c s)%string = (n, String c s).
Proof.
  intros Hn Hc. induction n as [|x n IH]; simpl in *.
  - rewrite Hc. reflexivity.
  - apply andb_true_iff in Hn as [Hx Hn]. rewrite Hx, (IH Hn). reflexivity.
Qed.


Lemma variant_scan_skip a b : variant_scan (String.length a) (a ++ b)%string = variant_scan 0 b.
Proof. induction a as [|x a IH]; [reflexivity|]. exact IH. Qed.

Lemma variant_scan_item n rest :
  n <> "" -> all_chars word_char n = true ->
  variant_scan 0 (render_request n ++ rest)%string = n :: variant_scan 0 rest.
Proof.
  intros Hne Hw. unfold render_request. rewrite !str_app_assoc.
  assert (Hs : (variant_tag ++ (n ++ ("')" ++ rest))
               = String "P" ("ackageRequest('" ++ (n ++ ("')" ++ rest))))%string) by reflexivity.
  rewrite Hs. cbn [variant_scan]. rewrite <- Hs, strip_prefix_app.
  change ("')" ++ rest)%string with (String "'" (String ")" rest)).
  rewrite (take_run_app n "'"%char (String ")" rest) Hw eq_refl).
  destruct n as [|c0 n0]; [congruence|]. cbn [strip_prefix]. rewrite !Ascii.eqb_refl.
  f_equal.
  change (String "'" (String ")" rest)) with ("')" ++ rest)%string.
  rewrite <- str_app_assoc, <- str_app_assoc.
  replace (String.length variant_tag + String.length (String c0 n0) + 1)
    with (String.length (("ackageRequest('" ++ String c0 n0) ++ "')")%string)
    by (rewrite !str_length_app; simpl; lia).
  apply variant_scan_skip.
Qed.

Lemma variant_scan_requests ns :
  Forall (fun n => n <> "" /\ all_chars word_char n = true) ns ->
  variant_scan 0 (render_requests ns ++ "]")%string = ns.
Proof.
  induction ns as [|n ns IH]; intros H; [reflexivity|].
  inversion H as [|? ? [Hne Hw] Ht]; subst.
  destruct ns as [|n2 ns].
  - simpl render_requests. rewrite (variant_scan_item n _ Hne Hw). reflexivity.
  - change (render_requests (n :: n2 :: ns))
      with (render_request n ++ ", " ++ render_requests (n2 :: ns))%string.
    rewrite str_app_assoc, (variant_scan_item n _ Hne Hw), str_app_assoc.
    f_equal. change (variant_scan 0 (render_requests (n2 :: ns) ++ "]")%string = n2 :: ns).
    apply IH, Ht.
Qed.

(** [parse_variants] reads back the names of a variant list as rez prints
    it, in order, when each name is a nonempty run of [[\w\.-]]. *)
Theorem parse_variants_round_trip (ns : list string)
  (H : Forall (fun n => n <> "" /\ all_chars word_char n = true) ns) :
  variant_matches (render_variants ns) = ns.
Proof.
  unfold variant_matches, render_variants.
  change (variant_scan 0 (render_requests ns ++ "]")%string = ns). apply variant_scan_requests, H.
Qed.

Lemma parse_variants_round_trip_witness :
  render_variants ["python-3.7"; "platform-linux"]
    = "[PackageRequest('python-3.7'), PackageRequest('platform-linux')]"
  /\ variant_matches (render_variants ["python-3.7"; "platform-linux"])
     = ["python-3.7"; "platform-linux"].
Proof.
  split; [reflexivity|].
  apply parse_variants_round_trip. repeat constructor; discriminate.
Defined.



